(** * MathFeatures: row-wise aggregation of numeric columns

    A shallow embedding of [feature_engine/creation/math_features.py]
    (class [MathFeatures]) together with the fragments of Python, numpy and
    pandas that the class relies on, and the properties of the embedding.

    Numbers are exact rationals extended with the IEEE special values
    (not-a-number and the two infinities); rounding and signed zeros are
    abstracted away.  The square root used by [np.nanstd] and pandas'
    aggregation by name are parameters of the development. *)

From Stdlib Require Import String Ascii DecimalString.
From Stdlib Require Import ZArith QArith Qcanon Bool Lia Arith List.
Import ListNotations.

Local Open Scope string_scope.
Local Open Scope list_scope.
Local Open Scope nat_scope.

(* ====================================================================== *)
(** ** Python: exceptions, results, hashable scalars                       *)
(* ====================================================================== *)

(** The exceptions the module and its collaborators raise.  [ValueError] is
    what the specification calls ConfigError, [NotImplementedError] what it
    calls UnsupportedSpecError. *)
Inductive exn : Type :=
| ValueError
| NotImplementedError
| TypeError
| AttributeError
| KeyError
| IndexError
| UnboundLocalError
| InvalidIndexError
| NotFittedError
| SchemaError
| DanglingReference.

Inductive result (A : Type) : Type :=
| Ok (a : A)
| Raise (e : exn).
Arguments Ok {A} a.
Arguments Raise {A} e.

Definition ConfigError : exn := ValueError.
Definition UnsupportedSpecError : exn := NotImplementedError.

Definition rbind {A B} (m : result A) (k : A -> result B) : result B :=
  match m with
  | Ok a => k a
  | Raise e => Raise e
  end.

Notation "x <- m ;; k" := (rbind m (fun x => k))
  (at level 61, m at next level, right associativity).

Fixpoint mapM {A B} (f : A -> result B) (l : list A) : result (list B) :=
  match l with
  | [] => Ok []
  | x :: t => y <- f x ;; ys <- mapM f t ;; Ok (y :: ys)
  end.

(** Column identifiers: strings or integers; [bool] is a subclass of [int]
    in Python, so [True] and [False] pass [isinstance(var, (int, str))]. *)
Inductive key : Type :=
| KStr (s : string)
| KInt (z : Z)
| KBool (b : bool).

(** Python's [==] (and hashing) on these scalars: [True == 1], [False == 0],
    a string never equals a number. *)
Definition key_num (k : key) : option Z :=
  match k with
  | KStr _ => None
  | KInt z => Some z
  | KBool b => Some (if b then 1%Z else 0%Z)
  end.

Definition key_eqb (a b : key) : bool :=
  match a, b with
  | KStr s, KStr t => String.eqb s t
  | KStr _, _ | _, KStr _ => false
  | _, _ =>
      match key_num a, key_num b with
      | Some x, Some y => Z.eqb x y
      | _, _ => false
      end
  end.

Definition key_in (k : key) (l : list key) : bool := existsb (key_eqb k) l.

(** [f"{var}"] *)
Definition format_key (k : key) : string :=
  match k with
  | KStr s => s
  | KInt z => NilZero.string_of_int (Z.to_int z)
  | KBool true => "True"
  | KBool false => "False"
  end.

(** [sep.join(parts)] *)
Fixpoint join (sep : string) (parts : list string) : string :=
  match parts with
  | [] => ""
  | [s] => s
  | s :: t => s ++ sep ++ join sep t
  end.

(** [len(set(l))]: the number of pairwise different elements. *)
Fixpoint py_set {A} (eqb : A -> A -> bool) (l : list A) : list A :=
  match l with
  | [] => []
  | x :: t => if existsb (eqb x) t then py_set eqb t else x :: py_set eqb t
  end.

(* ====================================================================== *)
(** ** numpy: values and reductions along axis 1                           *)
(* ====================================================================== *)

(** A cell of a numeric table. *)
Inductive fl : Type :=
| NaN
| NInf
| PInf
| Fin (q : Qc).

Definition of_Z (z : Z) : fl := Fin (Q2Qc (inject_Z z)).
Definition of_nat (n : nat) : fl := of_Z (Z.of_nat n).

Definition isnan (x : fl) : bool :=
  match x with NaN => true | _ => false end.

Definition fl_eqb (x y : fl) : bool :=
  match x, y with
  | NaN, NaN | NInf, NInf | PInf, PInf => true
  | Fin a, Fin b => Qc_eq_bool a b
  | _, _ => false
  end.

Definition fneg (x : fl) : fl :=
  match x with
  | NaN => NaN
  | NInf => PInf
  | PInf => NInf
  | Fin q => Fin (- q)%Qc
  end.

Definition fadd (x y : fl) : fl :=
  match x, y with
  | NaN, _ | _, NaN => NaN
  | PInf, NInf | NInf, PInf => NaN
  | PInf, _ | _, PInf => PInf
  | NInf, _ | _, NInf => NInf
  | Fin a, Fin b => Fin (a + b)%Qc
  end.

Definition fsub (x y : fl) : fl := fadd x (fneg y).

(** The sign of an infinity multiplied or divided by a finite number. *)
Definition scale_inf (pos : bool) (q : Qc) : fl :=
  match (q ?= 0)%Qc with
  | Eq => NaN
  | Gt => if pos then PInf else NInf
  | Lt => if pos then NInf else PInf
  end.

Definition fmul (x y : fl) : fl :=
  match x, y with
  | NaN, _ | _, NaN => NaN
  | PInf, PInf | NInf, NInf => PInf
  | PInf, NInf | NInf, PInf => NInf
  | PInf, Fin q | Fin q, PInf => scale_inf true q
  | NInf, Fin q | Fin q, NInf => scale_inf false q
  | Fin a, Fin b => Fin (a * b)%Qc
  end.

Definition fdiv (x y : fl) : fl :=
  match x, y with
  | NaN, _ | _, NaN => NaN
  | (PInf | NInf), (PInf | NInf) => NaN
  | PInf, Fin q => match (q ?= 0)%Qc with Lt => NInf | _ => PInf end
  | NInf, Fin q => match (q ?= 0)%Qc with Lt => PInf | _ => NInf end
  | Fin _, (PInf | NInf) => Fin 0%Qc
  | Fin a, Fin b =>
      match (b ?= 0)%Qc with
      | Eq => scale_inf true a
      | _ => Fin (a / b)%Qc
      end
  end.

(** [x <= y] on values that are not NaN. *)
Definition fleb (x y : fl) : bool :=
  match x, y with
  | NaN, _ | _, NaN => false
  | NInf, _ => true
  | _, PInf => true
  | _, NInf => false
  | PInf, _ => false
  | Fin a, Fin b => match (a ?= b)%Qc with Gt => false | _ => true end
  end.

(** [np.minimum] and [np.maximum]: NaN propagates. *)
Definition fminimum (x y : fl) : fl :=
  if isnan x || isnan y then NaN else if fleb x y then x else y.

Definition fmaximum (x y : fl) : fl :=
  if isnan x || isnan y then NaN else if fleb x y then y else x.

(** [np.sum], [np.prod], [np.amin], [np.amax], [np.mean] on one row. *)
Definition np_sum (a : list fl) : fl := fold_left fadd a (Fin 0%Qc).
Definition np_prod (a : list fl) : fl := fold_left fmul a (Fin 1%Qc).

Definition np_amin (a : list fl) : result fl :=
  match a with
  | [] => Raise ValueError
  | x :: t => Ok (fold_left fminimum t x)
  end.

Definition np_amax (a : list fl) : result fl :=
  match a with
  | [] => Raise ValueError
  | x :: t => Ok (fold_left fmaximum t x)
  end.

Definition np_mean (a : list fl) : fl := fdiv (np_sum a) (of_nat (length a)).

(** Sorting, for the median. *)
Fixpoint insert_sorted (x : fl) (l : list fl) : list fl :=
  match l with
  | [] => [x]
  | y :: t => if fleb x y then x :: l else y :: insert_sorted x t
  end.

Definition np_sort (l : list fl) : list fl := fold_right insert_sorted [] l.

(** [np.median] on a row without NaN: the mean of the middle element, or
    of the two middle elements, of the sorted row. *)
Definition np_median (a : list fl) : fl :=
  let part := np_sort a in
  let sz := length a in
  let index := Nat.div sz 2 in
  if Nat.even sz
  then np_mean (firstn 2 (skipn (index - 1) part))
  else np_mean (firstn 1 (skipn index part)).

(** [_replace_nan(a, val)]: a copy of [a] with NaN replaced, and the mask of
    the replaced positions. *)
Definition _replace_nan (a : list fl) (val : fl) : list fl * list bool :=
  (map (fun x => if isnan x then val else x) a, map isnan a).

(** [np.copyto(arr, val, where=mask)] *)
Definition copyto (arr : list fl) (val : fl) (mask : list bool) : list fl :=
  map (fun p : fl * bool => if snd p then val else fst p) (combine arr mask).

Definition count_false (mask : list bool) : nat :=
  length (filter negb mask).

(** The values that are present in a row. *)
Definition present (row : list fl) : list fl :=
  filter (fun x => negb (isnan x)) row.

Definition nansum (row : list fl) : fl :=
  let (a, mask) := _replace_nan row (Fin 0%Qc) in np_sum a.

Definition nanprod (row : list fl) : fl :=
  let (a, mask) := _replace_nan row (Fin 1%Qc) in np_prod a.

Definition nanmean (row : list fl) : fl :=
  let (arr, mask) := _replace_nan row (Fin 0%Qc) in
  let cnt := count_false mask in
  let tot := np_sum arr in
  fdiv tot (of_nat cnt).

(** [np.nanmin] on a table (not a bare array): NaN is replaced by
    [+inf], the plain minimum is taken, and a row whose mask is all true is
    set to NaN. *)
Definition nanmin (row : list fl) : result fl :=
  let (a, mask) := _replace_nan row PInf in
  res <- np_amin a ;;
  Ok (if forallb (fun b => b) mask then NaN else res).

Definition nanmax (row : list fl) : result fl :=
  let (a, mask) := _replace_nan row NInf in
  res <- np_amax a ;;
  Ok (if forallb (fun b => b) mask then NaN else res).

(** [np.nanmedian]: an empty block falls back to [nanmean]; otherwise
    the NaN are removed and an emptied row yields NaN. *)
Definition nanmedian (row : list fl) : fl :=
  match row with
  | [] => nanmean row
  | _ =>
      match present row with
      | [] => NaN
      | p => np_median p
      end
  end.

(** [np.nanvar(a, axis=1, ddof=ddof)] *)
Definition nanvar (row : list fl) (ddof : Z) : fl :=
  let (arr, mask) := _replace_nan row (Fin 0%Qc) in
  let cnt := count_false mask in
  let avg := fdiv (np_sum arr) (of_nat cnt) in
  let arr := map (fun x => fsub x avg) arr in
  let arr := copyto arr (Fin 0%Qc) mask in
  let sqr := map (fun x => fmul x x) arr in
  let var := np_sum sqr in
  let dof := (Z.of_nat cnt - ddof)%Z in
  let var := fdiv var (of_Z dof) in
  let isbad := (dof <=? 0)%Z in
  if isbad then NaN else var.

Section Reductions.

(** [np.sqrt] on a finite, non-negative rational. *)
Variable sqrt_Qc : Qc -> Qc.

Definition fsqrt (x : fl) : fl :=
  match x with
  | NaN | NInf => NaN
  | PInf => PInf
  | Fin q => match (q ?= 0)%Qc with Lt => NaN | _ => Fin (sqrt_Qc q) end
  end.

(** [np.nanstd(a, axis=1, ddof=ddof)] *)
Definition nanstd (row : list fl) (ddof : Z) : fl :=
  let var := nanvar row ddof in
  fsqrt var.

End Reductions.

(* ====================================================================== *)
(** ** Python values handed to the constructor                             *)
(* ====================================================================== *)

(** A user-supplied callable: its [__name__] (absent on some callables), the
    value of [__self__.scope_target] when that attribute path resolves, and
    the scalar it computes from the values of one row. *)
Record callable : Type := {
  __name__ : option string;
  self_scope_target : option string;
  call : list fl -> fl
}.

#[warnings="-register-all"]
Inductive PyVal : Type :=
| PNone
| PBool (b : bool)
| PInt (z : Z)
| PStr (s : string)
| PList (items : list PyVal)
| PTuple (items : list PyVal)
| PDict (items : list (PyVal * PyVal))
| PCallable (c : callable).

(** [isinstance(v, (int, str))], with the scalar when it holds. *)
Definition as_key (v : PyVal) : option key :=
  match v with
  | PStr s => Some (KStr s)
  | PInt z => Some (KInt z)
  | PBool b => Some (KBool b)
  | _ => None
  end.

(** [isinstance(v, str)], with the string when it holds. *)
Definition as_str (v : PyVal) : option string :=
  match v with
  | PStr s => Some s
  | _ => None
  end.

(** [all(pred(v) for v in l)], collecting the witnesses. *)
Fixpoint all_as {A} (f : PyVal -> option A) (l : list PyVal) : option (list A) :=
  match l with
  | [] => Some []
  | v :: t =>
      match f v, all_as f t with
      | Some a, Some r => Some (a :: r)
      | _, _ => None
      end
  end.

(** [v in names] for a tuple of string literals. *)
Definition py_in (v : PyVal) (names : list string) : bool :=
  match v with
  | PStr s => existsb (String.eqb s) names
  | _ => false
  end.

(** The items a [for] loop (or [enumerate]) sees. *)
Definition py_iter (v : PyVal) : result (list PyVal) :=
  match v with
  | PList l | PTuple l => Ok l
  | PDict l => Ok (map fst l)
  | PStr s => Ok (map (fun c => PStr (String c EmptyString)) (list_ascii_of_string s))
  | PNone | PBool _ | PInt _ | PCallable _ => Raise TypeError
  end.

Definition enumerate {A} (l : list A) : list (nat * A) :=
  combine (seq 0 (length l)) l.

(** [l[i]] *)
Definition list_getitem {A} (l : list A) (i : nat) : result A :=
  match nth_error l i with
  | Some a => Ok a
  | None => Raise IndexError
  end.

(* ====================================================================== *)
(** ** pandas: series and tables                                           *)
(* ====================================================================== *)

(** A series is a list of values labelled by an index; a table is an index
    of row labels and an ordered list of labelled columns (labels may
    repeat). *)
Record Series : Type := {
  s_index : list Z;
  s_values : list fl
}.

Record DataFrame : Type := {
  index : list Z;
  data : list (key * list fl)
}.

Definition columns (df : DataFrame) : list key := map fst (data df).
Definition nrows (df : DataFrame) : nat := length (index df).

Definition RangeIndex (n : nat) : list Z := map Z.of_nat (seq 0 n).

(** [pd.Series(values)] *)
Definition pd_Series (values : list fl) : Series :=
  {| s_index := RangeIndex (length values); s_values := values |}.

(** [pd.DataFrame()] *)
Definition pd_DataFrame : DataFrame := {| index := []; data := [] |}.

Definition index_eqb (a b : list Z) : bool :=
  if list_eq_dec Z.eq_dec a b then true else false.

Definition is_unique (idx : list Z) : bool :=
  Nat.eqb (length (py_set Z.eqb idx)) (length idx).

(** The position of a label in an index. *)
Fixpoint get_loc (idx : list Z) (l : Z) : option nat :=
  match idx with
  | [] => None
  | x :: t => if Z.eqb x l then Some 0 else option_map S (get_loc t l)
  end.

(** [values] taken at the positions of [target]'s labels in [idx]; NaN for
    a label that [idx] does not have. *)
Definition take_labels (idx : list Z) (values : list fl) (target : list Z) : list fl :=
  map (fun l => match get_loc idx l with
                | Some i => nth i values NaN
                | None => NaN
                end) target.

(** [s.reindex(target)._values]; refused on an index with duplicates. *)
Definition reindex (idx : list Z) (values : list fl) (target : list Z)
  : result (list fl) :=
  if index_eqb idx target then Ok values
  else if is_unique idx then Ok (take_labels idx values target)
  else Raise InvalidIndexError.

(** [df[name] = value] for a series (or one-column table) [value].  An empty
    table takes the index of the value; the value is aligned on
    the table's index; an existing column is overwritten in place, a new one
    is appended. *)
Definition set_column (cols : list (key * list fl)) (name : key) (vals : list fl)
  : list (key * list fl) :=
  if key_in name (map fst cols)
  then map (fun c : key * list fl => if key_eqb (fst c) name then (fst c, vals) else c) cols
  else cols ++ [(name, vals)].

Definition setitem (df : DataFrame) (name : key) (value : Series) : result DataFrame :=
  let ensure := match index df, s_values value with
                | [], _ :: _ => true
                | _, _ => false
                end in
  let idx := if ensure then s_index value else index df in
  let cols := if ensure
              then map (fun c : key * list fl => (fst c, repeat NaN (length idx))) (data df)
              else data df in
  vals <- match idx with
          | [] => Ok (s_values value)
          | _ => reindex (s_index value) (s_values value) idx
          end ;;
  Ok {| index := idx; data := set_column cols name vals |}.

(** [df[names]]: the columns carrying each of the labels, in the order of
    [names]; [KeyError] for a label the table does not have. *)
Definition getitem (df : DataFrame) (names : list key) : result DataFrame :=
  cols <- mapM (fun k =>
                  match filter (fun c : key * list fl => key_eqb (fst c) k) (data df) with
                  | [] => Raise KeyError
                  | cs => Ok cs
                  end) names ;;
  Ok {| index := index df; data := concat cols |}.

(** The rows of a table, as numpy sees them. *)
Definition values (df : DataFrame) : list (list fl) :=
  map (fun i => map (fun c : key * list fl => nth i (snd c) NaN) (data df))
      (seq 0 (nrows df)).

(** [pd.concat([a, b], axis=1)]: an outer join on the row labels.  The
    joined index keeps the labels of [a] and appends those that only [b]
    has; each table is re-indexed unless its index already is the joined
    one. *)
Definition union_index (ia ib : list Z) : list Z :=
  if index_eqb ia ib then ia
  else ia ++ filter (fun l => negb (existsb (Z.eqb l) ia)) ib.

Definition reindex_frame (df : DataFrame) (target : list Z)
  : result (list (key * list fl)) :=
  mapM (fun c : key * list fl =>
          v <- reindex (index df) (snd c) target ;; Ok (fst c, v)) (data df).

Definition concat_axis1 (a b : DataFrame) : result DataFrame :=
  let u := union_index (index a) (index b) in
  ca <- reindex_frame a u ;;
  cb <- reindex_frame b u ;;
  Ok {| index := u; data := ca ++ cb |}.

(** [df.drop(columns=names)]: every column carrying one of the labels
    goes; [KeyError] for a label the table does not have. *)
Definition drop (df : DataFrame) (names : list key) : result DataFrame :=
  if forallb (fun k => key_in k (columns df)) names
  then Ok {| index := index df;
             data := filter (fun c : key * list fl => negb (key_in (fst c) names)) (data df) |}
  else Raise KeyError.

(** Tables live in a store and are passed by reference. *)
Definition ref : Type := nat.
Definition heap : Type := list DataFrame.
Definition M (A : Type) : Type := heap -> result A * heap.

Definition ret {A} (a : A) : M A := fun h => (Ok a, h).

Definition bind {A B} (m : M A) (k : A -> M B) : M B :=
  fun h => match m h with
           | (Ok a, h') => k a h'
           | (Raise e, h') => (Raise e, h')
           end.

Notation "x <~ m ;; k" := (bind m (fun x => k))
  (at level 61, m at next level, right associativity).

Definition lift {A} (r : result A) : M A := fun h => (r, h).

Definition alloc (df : DataFrame) : M ref :=
  fun h => (Ok (length h), h ++ [df]).

Definition load (r : ref) : M DataFrame :=
  fun h => match nth_error h r with
           | Some df => (Ok df, h)
           | None => (Raise DanglingReference, h)
           end.

Fixpoint update {A} (l : list A) (i : nat) (a : A) : list A :=
  match l, i with
  | [], _ => []
  | _ :: t, O => a :: t
  | x :: t, S j => x :: update t j a
  end.

Definition store (r : ref) (df : DataFrame) : M unit :=
  fun h => (Ok tt, update h r df).

Fixpoint for_each {A} (l : list A) (body : A -> M unit) : M unit :=
  match l with
  | [] => ret tt
  | x :: t => _ <~ body x ;; for_each t body
  end.

(** [pd.concat([a, b], axis=1)] builds a new table. *)
Definition pd_concat (a b : ref) : M ref :=
  da <~ load a ;;
  db <~ load b ;;
  d <~ lift (concat_axis1 da db) ;;
  alloc d.

(** [df.drop(columns=names, inplace=True)] changes the table it is called
    on. *)
Definition drop_inplace (r : ref) (names : list key) : M unit :=
  d <~ load r ;;
  d' <~ lift (drop d names) ;;
  store r d'.

(* ====================================================================== *)
(** ** MathFeatures                                                        *)
(* ====================================================================== *)

(** What [fit] leaves on the instance. *)
Record FittedState : Type := {
  variables_ : list key;
  n_features_in_ : nat
}.

Record MathFeatures : Type := {
  variables : list key;
  func : PyVal;
  new_variables_names : option (list string);
  missing_values : string;
  drop_original : bool;
  fitted : option FittedState
}.

(** Modelled from the spec: [BaseCreation.__init__] is not part of the
    sources at hand.  The missing-value policy is one of the two enumerated
    values; the drop flag is a boolean by its type. *)
Definition BaseCreation_init (missing_values : string) (drop_original : bool)
  : result unit :=
  if String.eqb missing_values "raise" || String.eqb missing_values "ignore"
  then Ok tt
  else Raise ValueError.

(** [MathFeatures.__init__] *)
Definition __init__ (variables func new_variables_names : PyVal)
    (missing_values : string) (drop_original : bool) : result MathFeatures :=
  (* casting input parameter func to a list *)
  let function_input :=
    match func with
    | PStr _ => PList [func]
    | PList _ => func
    | _ => func
    end in
  let func := function_input in
  match variables with
  | PList vars =>
      match all_as as_key vars with
      | Some ks =>
          if (length ks <? 2) || negb (length (py_set key_eqb ks) =? length ks)
          then Raise ValueError
          else
            match func with
            | PDict _ => Raise NotImplementedError
            | _ =>
                names <-
                  match new_variables_names with
                  | PNone => Ok None
                  | PList ns =>
                      match all_as as_str ns with
                      | Some ss =>
                          if negb (length (py_set String.eqb ss) =? length ss)
                          then Raise ValueError
                          else Ok (Some ss)
                      | None => Raise ValueError
                      end
                  | _ => Raise ValueError
                  end ;;
                _ <-
                  match names with
                  | Some ss =>
                      match func with
                      | PList fs =>
                          if negb (length ss =? length fs)
                          then Raise ValueError
                          else Ok tt
                      | _ => Ok tt
                      end
                  | None => Ok tt
                  end ;;
                _ <- BaseCreation_init missing_values drop_original ;;
                Ok {| variables := ks;
                      func := func;
                      new_variables_names := names;
                      missing_values := missing_values;
                      drop_original := drop_original;
                      fitted := None |}
            end
      | None => Raise ValueError
      end
  | _ => Raise ValueError
  end.

(** Does some listed column hold a missing value? *)
Definition contains_na (df : DataFrame) (names : list key) : bool :=
  existsb (fun c : key * list fl => key_in (fst c) names && existsb isnan (snd c))
          (data df).

(** Modelled from the spec: [BaseCreation.fit] is not part of the sources
    at hand.  It checks that the input columns exist and satisfy the
    missing-value policy, records the input columns and the number of
    columns of the table, and returns the instance. *)
Definition fit (self : MathFeatures) (X : DataFrame) : result MathFeatures :=
  if negb (forallb (fun k => key_in k (columns X)) (variables self))
  then Raise SchemaError
  else if String.eqb (missing_values self) "raise" && contains_na X (variables self)
  then Raise SchemaError
  else Ok {| variables := variables self;
             func := func self;
             new_variables_names := new_variables_names self;
             missing_values := missing_values self;
             drop_original := drop_original self;
             fitted := Some {| variables_ := variables self;
                               n_features_in_ := length (columns X) |} |}.

(** Modelled from the spec: [BaseCreation._check_transform_input_and_state]
    is not part of the sources at hand.  It fails when [fit] was never
    called, when the table does not have the columns seen by [fit], and when
    the policy is "raise" and an input column has a missing value; it does
    not change the table and hands it on. *)
Definition check_table (self : MathFeatures) (X : DataFrame) : result unit :=
  match fitted self with
  | None => Raise NotFittedError
  | Some st =>
      if negb (length (columns X) =? n_features_in_ st)
      then Raise SchemaError
      else if negb (forallb (fun k => key_in k (columns X)) (variables self))
      then Raise SchemaError
      else if String.eqb (missing_values self) "raise"
              && contains_na X (variables self)
      then Raise SchemaError
      else Ok tt
  end.

Definition _check_transform_input_and_state (self : MathFeatures) (X : ref) : M ref :=
  d <~ load X ;;
  _ <~ lift (check_table self d) ;;
  ret X.

(** [MathFeatures._get_new_features_name] *)
Definition _get_new_features_name (self : MathFeatures) : result (list string) :=
  match new_variables_names self with
  | Some names => Ok names
  | None =>
      varlist <- match fitted self with
                 | Some st => Ok (map format_key (variables_ st))
                 | None => Raise AttributeError
                 end ;;
      match func self with
      | PList fs =>
          functions <-
            mapM (fun fun_ =>
                    match fun_ with
                    | PStr s => Ok s
                    | PCallable c =>
                        match __name__ c with
                        | Some n => Ok n
                        | None => Raise AttributeError
                        end
                    | _ => Raise AttributeError
                    end) fs ;;
          Ok (map (fun function => (function ++ "_" ++ join "_" varlist)%string)
                  functions)
      | _ => Raise UnboundLocalError
      end
  end.

Section Transform.

(** [np.sqrt] on a finite, non-negative rational. *)
Variable sqrt_Qc : Qc -> Qc.

(** What [DataFrame.agg(name, axis=1)] computes per row for a name that
    pandas knows, and [None] for a name it does not know. *)
Variable agg_by_name : string -> option (list fl -> fl).

(** The chain of comparisons at the head of [np_transform]'s loop body: the
    numpy reduction that a built-in name or its alias selects. *)
Definition builtin (np_function : PyVal) : option (list fl -> result fl) :=
  if py_in np_function ["sum"; "np.sum"] then
    Some (fun row => Ok (nansum row))
  else if py_in np_function ["mean"; "np.mean"] then
    Some (fun row => Ok (nanmean row))
  else if py_in np_function ["min"; "np.min"] then
    Some nanmin
  else if py_in np_function ["max"; "np.max"] then
    Some nanmax
  else if py_in np_function ["prod"; "np.prod"] then
    Some (fun row => Ok (nanprod row))
  else if py_in np_function ["median"; "np.median"] then
    Some (fun row => Ok (nanmedian row))
  else if py_in np_function ["std"; "np.std"] then
    Some (fun row => Ok (nanstd sqrt_Qc row 1))
  else if py_in np_function ["var"; "np.var"] then
    Some (fun row => Ok (nanvar row 1))
  else None.

(** [df.agg(np_function, axis=1)] *)
Definition agg (np_function : PyVal) (block : list (list fl)) : result (list fl) :=
  match np_function with
  | PCallable c => Ok (map (call c) block)
  | PStr s =>
      match agg_by_name s with
      | Some f => Ok (map f block)
      | None => Raise AttributeError
      end
  | _ => Raise TypeError
  end.

(** [np.apply_over_axes(np_function, block, 1)] *)
Definition apply_over_axes (np_function : PyVal) (block : list (list fl))
  : result (list fl) :=
  match np_function with
  | PCallable c => Ok (map (call c) block)
  | _ => Raise TypeError
  end.

(** The execution scope of a specification that is not a built-in name:
    [np_function.__self__.scope_target], and "pandas" when that attribute
    path does not resolve. *)
Definition scope_of (np_function : PyVal) : string :=
  match np_function with
  | PCallable c =>
      match self_scope_target c with
      | Some s => s
      | None => "pandas"
      end
  | _ => "pandas"
  end.

(** One turn of the loop of [np_transform]: the table of results after the
    turn, from the table of results before it. *)
Definition np_step (np_df : DataFrame) (new_variable_names : list string)
    (np_variables : list key) (p : nat * PyVal) (np_result_df : DataFrame)
  : result DataFrame :=
  let (np_function_idx, np_function) := p in
  match builtin np_function with
  | Some reduction =>
      sub <- getitem np_df np_variables ;;
      result <- mapM reduction (values sub) ;;
      name <- list_getitem new_variable_names np_function_idx ;;
      setitem np_result_df (KStr name) (pd_Series result)
  | None =>
      let scope_target := scope_of np_function in
      if String.eqb scope_target "numpy" then
        sub <- getitem np_df np_variables ;;
        result <- apply_over_axes np_function (values sub) ;;
        name <- list_getitem new_variable_names np_function_idx ;;
        setitem np_result_df (KStr name) (pd_Series result)
      else if String.eqb scope_target "pandas" then
        sub <- getitem np_df np_variables ;;
        result <- agg np_function (values sub) ;;
        name <- list_getitem new_variable_names np_function_idx ;;
        setitem np_result_df (KStr name)
                {| s_index := index sub; s_values := result |}
      else Ok np_result_df
  end.

(** [np_transform], the function local to [transform] *)
Definition np_transform (np_df : ref) (new_variable_names : list string)
    (np_variables : list key) (np_functions : PyVal) : M ref :=
  np_result_df <~ alloc pd_DataFrame ;;
  fs <~ lift (py_iter np_functions) ;;
  _ <~ for_each (enumerate fs)
        (fun p =>
           d <~ load np_df ;;
           r <~ load np_result_df ;;
           r' <~ lift (np_step d new_variable_names np_variables p r) ;;
           store np_result_df r') ;;
  ret np_result_df.

(** [MathFeatures.transform] *)
Definition transform (self : MathFeatures) (X : ref) : M ref :=
  X <~ _check_transform_input_and_state self X ;;
  new_variable_names <~ lift (_get_new_features_name self) ;;
  R <~ np_transform X new_variable_names (variables self) (func self) ;;
  X <~ pd_concat X R ;;
  _ <~ (if drop_original self
        then drop_inplace X (variables self)
        else ret tt) ;;
  ret X.

(** The same computation on the tables themselves. *)
Fixpoint np_steps (np_df : DataFrame) (new_variable_names : list string)
    (np_variables : list key) (fs : list (nat * PyVal)) (r : DataFrame)
  : result DataFrame :=
  match fs with
  | [] => Ok r
  | p :: t =>
      r' <- np_step np_df new_variable_names np_variables p r ;;
      np_steps np_df new_variable_names np_variables t r'
  end.

Definition transform_table (self : MathFeatures) (X : DataFrame) : result DataFrame :=
  _ <- check_table self X ;;
  new_variable_names <- _get_new_features_name self ;;
  fs <- py_iter (func self) ;;
  R <- np_steps X new_variable_names (variables self) (enumerate fs) pd_DataFrame ;;
  Y <- concat_axis1 X R ;;
  if drop_original self then drop Y (variables self) else Ok Y.

End Transform.

(* ====================================================================== *)
(** ** Vocabulary of the statements                                        *)
(* ====================================================================== *)

(** The sum of the squared deviations of a row from its mean. *)
Definition sum_sq_dev (p : list fl) : fl :=
  let avg := np_mean p in
  np_sum (map (fun x => fmul (fsub x avg) (fsub x avg)) p).

(** The first column carrying a label. *)
Definition lookup_column (df : DataFrame) (k : key) : option (list fl) :=
  match filter (fun c : key * list fl => key_eqb (fst c) k) (data df) with
  | c :: _ => Some (snd c)
  | [] => None
  end.

(** Every column has one value per row label. *)
Definition well_formed (df : DataFrame) : Prop :=
  Forall (fun c : key * list fl => length (snd c) = nrows df) (data df).

Definition dec (n : Z) (d : positive) : fl := Fin (Q2Qc (n # d)).

(** The tables of the scenarios of the documentation. *)
Definition table_A : DataFrame :=
  {| index := RangeIndex 3;
     data := [(KStr "x1", [dec 1 1; dec 2 1; dec 3 1]);
              (KStr "x2", [dec 4 1; dec 5 1; dec 6 1])] |}.

Definition table_C : DataFrame :=
  {| index := RangeIndex 3;
     data := [(KStr "x1", [dec 1 1; NaN; dec 3 1]);
              (KStr "x2", [dec 4 1; dec 5 1; dec 6 1])] |}.

(** Scenario A with row labels that are not the default ones. *)
Definition table_labelled : DataFrame :=
  {| index := [10%Z; 20%Z; 30%Z];
     data := [(KStr "x1", [dec 1 1; dec 2 1; dec 3 1]);
              (KStr "x2", [dec 4 1; dec 5 1; dec 6 1])] |}.

Definition x1_x2 : PyVal := PList [PStr "x1"; PStr "x2"].

(** What the specification asks of [variables]. *)
Definition is_int_or_str (v : PyVal) : Prop :=
  match v with
  | PStr _ | PInt _ | PBool _ => True
  | _ => False
  end.

Definition valid_variables (v : PyVal) : Prop :=
  exists l, v = PList l /\ Forall is_int_or_str l /\ 2 <= length l /\ NoDup l.

(** What the specification asks of [new_variables_names], for [n] reduction
    specifications. *)
Definition valid_names (v : PyVal) (n : nat) : Prop :=
  exists l, v = PList (map PStr l) /\ NoDup l /\ length l = n.

(** The name a specification contributes to a derived column name. *)
Definition identity (spec : PyVal) : option string :=
  match spec with
  | PStr s => Some s
  | PCallable c => __name__ c
  | _ => None
  end.

Definition derived_name (ident : string) (cols : list key) : string :=
  (ident ++ "_" ++ join "_" (map format_key cols))%string.

(** A callable in the manner of [np.sum], handed over as it is. *)
Definition a_callable : callable :=
  {| __name__ := Some "sum"; self_scope_target := None; call := nansum |}.

(** The table of results after [i] turns of the loop of [np_transform] on a
    table of [n] rows with the default row labels: one column of [n] values
    for each of the first [i] names, labelled by the default row labels. *)
Definition results_inv (n : nat) (names : list string) (i : nat)
    (R : DataFrame) : Prop :=
  columns R = map KStr (firstn i names)
  /\ i <= length names
  /\ Forall (fun c : key * list fl => length (snd c) = n) (data R)
  /\ (index R = RangeIndex n \/ (index R = [] /\ data R = [])).

(** The table a call of [transform] returned, if it returned one. *)
Definition returned_table (out : result ref * heap) : option DataFrame :=
  match out with
  | (Ok Y, h') => nth_error h' Y
  | (Raise _, _) => None
  end.

(** Equality of columns, decided. *)
Fixpoint column_eqb (a b : list fl) : bool :=
  match a, b with
  | [], [] => true
  | x :: s, y :: t => fl_eqb x y && column_eqb s t
  | _, _ => false
  end.

(** Stand-ins for the two parameters where a statement is evaluated and
    does not depend on them. *)
Definition sqrt_unused : Qc -> Qc := fun q => q.
Definition agg_unknown : string -> option (list fl -> fl) := fun _ => None.

(** The outcome of a computation, with another value on success. *)
Definition status {A B} (r : result A) (b : B) : result B :=
  match r with
  | Ok _ => Ok b
  | Raise e => Raise e
  end.

(** Construction on the columns [x1] and [x2], followed by [fit]. *)
Definition fitted_instance (func names : PyVal) (missing_values : string)
    (drop_original : bool) (X : DataFrame) : result MathFeatures :=
  self <- __init__ x1_x2 func names missing_values drop_original ;;
  fit self X.

(** The list the constructor casts [func] to. *)
Definition normalise (func : PyVal) : PyVal :=
  match func with
  | PStr _ => PList [func]
  | _ => func
  end.

(** The keys of a list of strings and integers. *)
Definition keys_of (vars : list PyVal) (ks : list key) : Prop :=
  Forall2 (fun v k => as_key v = Some k) vars ks.

(** No entry equals a later one, in Python's sense of equality. *)
Fixpoint distinct_keys (ks : list key) : Prop :=
  match ks with
  | [] => True
  | k :: t => key_in k t = false /\ distinct_keys t
  end.

(** The argument [new_variables_names] that leaves [stored] on the
    instance. *)
Definition names_given (names : PyVal) (stored : option (list string)) : Prop :=
  match stored with
  | None => names = PNone
  | Some ss => names = PList (map PStr ss)
  end.

(** The names of the built-in reductions and their aliases. *)
Definition builtin_names : list string :=
  ["sum"; "mean"; "min"; "max"; "prod"; "median"; "std"; "var"].

Definition builtin_aliases : list string :=
  map (fun name => ("np." ++ name)%string) builtin_names.

(** The instance of scenario D (the sum as [total], the mean as [avg]),
    with [drop_original] set, after [fit] on the table of scenario A. *)
Definition instance_total_avg : MathFeatures :=
  {| variables := [KStr "x1"; KStr "x2"];
     func := PList [PStr "sum"; PStr "mean"];
     new_variables_names := Some ["total"; "avg"];
     missing_values := "raise";
     drop_original := true;
     fitted := Some {| variables_ := [KStr "x1"; KStr "x2"];
                       n_features_in_ := 2 |} |}.

(** A fitted instance without any reduction specification. *)
Definition instance_no_specification : MathFeatures :=
  {| variables := [KStr "x1"; KStr "x2"];
     func := PList [];
     new_variables_names := None;
     missing_values := "raise";
     drop_original := false;
     fitted := Some {| variables_ := [KStr "x1"; KStr "x2"];
                       n_features_in_ := 2 |} |}.

(** A fitted instance that derives the names of its columns. *)
Definition instance_sum_mean : MathFeatures :=
  {| variables := [KStr "x1"; KStr "x2"];
     func := PList [PStr "sum"; PStr "mean"];
     new_variables_names := None;
     missing_values := "raise";
     drop_original := false;
     fitted := Some {| variables_ := [KStr "x1"; KStr "x2"];
                       n_features_in_ := 2 |} |}.

Section Vocabulary.

Variable sqrt_Qc : Qc -> Qc.
Variable agg_by_name : string -> option (list fl -> fl).

(** The value a built-in name yields on one row. *)
Definition apply_builtin (name : string) (row : list fl) : option (result fl) :=
  option_map (fun f => f row) (builtin sqrt_Qc (PStr name)).

(** A specification that [np_transform] turns into a column. *)
Definition resolvable (np_function : PyVal) : Prop :=
  builtin sqrt_Qc np_function <> None
  \/ scope_of np_function = "numpy" \/ scope_of np_function = "pandas".

(** The column a specification yields from the block of the input
    columns. *)
Definition spec_column (np_function : PyVal) (block : list (list fl))
  : result (list fl) :=
  match builtin sqrt_Qc np_function with
  | Some reduction => mapM reduction block
  | None =>
      if String.eqb (scope_of np_function) "numpy"
      then apply_over_axes np_function block
      else agg agg_by_name np_function block
  end.

(** A specification that [np_transform] passes over: not a built-in name
    and of a scope that is neither "numpy" nor "pandas". *)
Definition passed_over (np_function : PyVal) : Prop :=
  builtin sqrt_Qc np_function = None
  /\ scope_of np_function <> "numpy" /\ scope_of np_function <> "pandas".

End Vocabulary.

(* ====================================================================== *)
(** ** Properties of the reductions                                        *)
(* ====================================================================== *)

Lemma fadd_0_r (x : fl) : fadd x (Fin 0%Qc) = x.
Proof.
  destruct x; simpl; trivial.
  f_equal. ring.
Qed.

Lemma fmul_1_r (x : fl) : fmul x (Fin 1%Qc) = x.
Proof.
  destruct x; simpl; trivial.
  f_equal. ring.
Qed.

Lemma present_nan_free (row : list fl) : forallb (fun x => negb (isnan x)) (present row) = true.
Proof.
  unfold present. induction row as [|x t IH]; simpl; trivial.
  destruct (isnan x) eqn:E; simpl; trivial. now rewrite E.
Qed.

Lemma count_false_present (row : list fl) :
  count_false (map isnan row) = length (present row).
Proof.
  unfold count_false, present.
  induction row as [|x t IH]; simpl; trivial.
  destruct (isnan x); simpl; auto.
Qed.

Lemma all_masked_present (row : list fl) :
  forallb (fun b : bool => b) (map isnan row) = true <-> present row = [].
Proof.
  unfold present. induction row as [|x t IH]; simpl.
  - tauto.
  - destruct (isnan x); simpl.
    + exact IH.
    + split; discriminate.
Qed.

(** Folding a neutral element in place of each NaN is folding over the
    present values. *)
Lemma fold_replace_neutral (op : fl -> fl -> fl) (e : fl) :
  (forall x, op x e = x) ->
  forall row acc,
    fold_left op (map (fun x => if isnan x then e else x) row) acc
    = fold_left op (present row) acc.
Proof.
  intros He row. unfold present.
  induction row as [|x t IH]; intros acc; simpl; trivial.
  destruct (isnan x); simpl.
  - rewrite He. apply IH.
  - apply IH.
Qed.

Lemma nansum_present (row : list fl) : nansum row = np_sum (present row).
Proof.
  unfold nansum, np_sum. simpl. apply fold_replace_neutral, fadd_0_r.
Qed.

Lemma nanprod_present (row : list fl) : nanprod row = np_prod (present row).
Proof.
  unfold nanprod, np_prod. simpl. apply fold_replace_neutral, fmul_1_r.
Qed.

Lemma nanmean_present (row : list fl) : nanmean row = np_mean (present row).
Proof.
  unfold nanmean, np_mean. simpl.
  rewrite count_false_present.
  f_equal. apply (nansum_present row).
Qed.

Lemma fminimum_PInf_r (x : fl) : isnan x = false -> fminimum x PInf = x.
Proof. destruct x; simpl; intros; trivial; discriminate. Qed.

Lemma fminimum_PInf_l (x : fl) : isnan x = false -> fminimum PInf x = x.
Proof. destruct x; simpl; intros; trivial; discriminate. Qed.

Lemma fmaximum_NInf_r (x : fl) : isnan x = false -> fmaximum x NInf = x.
Proof. destruct x; simpl; intros; trivial; discriminate. Qed.

Lemma fmaximum_NInf_l (x : fl) : isnan x = false -> fmaximum NInf x = x.
Proof. destruct x; simpl; intros; trivial; discriminate. Qed.

Lemma fminimum_not_nan (x y : fl) :
  isnan x = false -> isnan y = false -> isnan (fminimum x y) = false.
Proof.
  intros Hx Hy. unfold fminimum. rewrite Hx, Hy. simpl.
  now destruct (fleb x y).
Qed.

Lemma fmaximum_not_nan (x y : fl) :
  isnan x = false -> isnan y = false -> isnan (fmaximum x y) = false.
Proof.
  intros Hx Hy. unfold fmaximum. rewrite Hx, Hy. simpl.
  now destruct (fleb x y).
Qed.

(** The same for an operation whose neutral element is only neutral on
    values that are not NaN (the sentinels of [nanmin] and [nanmax]). *)
Lemma fold_replace_sentinel (op : fl -> fl -> fl) (e : fl) :
  (forall x, isnan x = false -> op x e = x) ->
  (forall x y, isnan x = false -> isnan y = false -> isnan (op x y) = false) ->
  forall row acc, isnan acc = false ->
    fold_left op (map (fun x => if isnan x then e else x) row) acc
    = fold_left op (present row) acc.
Proof.
  intros He Hop row. unfold present.
  induction row as [|x t IH]; intros acc Hacc; simpl; trivial.
  destruct (isnan x) eqn:E; simpl.
  - rewrite He by assumption. now apply IH.
  - apply IH. now apply Hop.
Qed.

Lemma nan_reduce_sentinel (op : fl -> fl -> fl) (e : fl) :
  isnan e = false ->
  (forall x, isnan x = false -> op x e = x) ->
  (forall x, isnan x = false -> op e x = x) ->
  (forall x y, isnan x = false -> isnan y = false -> isnan (op x y) = false) ->
  forall row y p, present row = y :: p ->
    match map (fun x => if isnan x then e else x) row with
    | [] => None
    | x :: t => Some (fold_left op t x)
    end = Some (fold_left op p y).
Proof.
  intros Hne Her Hel Hop row.
  induction row as [|x t IH]; intros y p Hp.
  - discriminate.
  - simpl. unfold present in Hp. simpl in Hp.
    destruct (isnan x) eqn:E; simpl in Hp.
    + fold (present t) in Hp. f_equal.
      rewrite (fold_replace_sentinel op e Her Hop t e Hne), Hp. simpl.
      rewrite Hel; trivial.
      pose proof (present_nan_free t) as F. rewrite Hp in F. simpl in F.
      apply andb_prop in F. destruct F as [F _].
      now destruct (isnan y).
    + injection Hp as <- Hp. f_equal. fold (present t) in Hp. rewrite <- Hp.
      now apply fold_replace_sentinel.
Qed.

Lemma nanmin_present (row : list fl) :
  present row <> [] -> nanmin row = np_amin (present row).
Proof.
  intros Hp. unfold nanmin. simpl.
  destruct (present row) as [|y p] eqn:E; [contradiction|].
  pose proof (nan_reduce_sentinel fminimum PInf eq_refl fminimum_PInf_r
                fminimum_PInf_l fminimum_not_nan row y p E) as H.
  unfold np_amin at 1.
  destruct (map (fun x => if isnan x then PInf else x) row) as [|a t];
    [discriminate|].
  injection H as H. simpl. rewrite H.
  destruct (forallb (fun b : bool => b) (map isnan row)) eqn:F; trivial.
  apply all_masked_present in F. congruence.
Qed.

Lemma nanmax_present (row : list fl) :
  present row <> [] -> nanmax row = np_amax (present row).
Proof.
  intros Hp. unfold nanmax. simpl.
  destruct (present row) as [|y p] eqn:E; [contradiction|].
  pose proof (nan_reduce_sentinel fmaximum NInf eq_refl fmaximum_NInf_r
                fmaximum_NInf_l fmaximum_not_nan row y p E) as H.
  unfold np_amax at 1.
  destruct (map (fun x => if isnan x then NInf else x) row) as [|a t];
    [discriminate|].
  injection H as H. simpl. rewrite H.
  destruct (forallb (fun b : bool => b) (map isnan row)) eqn:F; trivial.
  apply all_masked_present in F. congruence.
Qed.

Lemma nanmedian_present (row : list fl) :
  present row <> [] -> nanmedian row = np_median (present row).
Proof.
  intros Hp. unfold nanmedian.
  destruct row as [|x t]; [now elim Hp|].
  now destruct (present (x :: t)).
Qed.

Lemma nanmin_all_missing (row : list fl) :
  row <> [] -> present row = [] -> nanmin row = Ok NaN.
Proof.
  intros Hr Hp. unfold nanmin. simpl.
  destruct row as [|x t]; [now elim Hr|]. simpl.
  apply all_masked_present in Hp. simpl in Hp. now rewrite Hp.
Qed.

Lemma nanmax_all_missing (row : list fl) :
  row <> [] -> present row = [] -> nanmax row = Ok NaN.
Proof.
  intros Hr Hp. unfold nanmax. simpl.
  destruct row as [|x t]; [now elim Hr|]. simpl.
  apply all_masked_present in Hp. simpl in Hp. now rewrite Hp.
Qed.

Lemma nanmean_all_missing (row : list fl) : present row = [] -> nanmean row = NaN.
Proof.
  intros Hp. rewrite nanmean_present, Hp. reflexivity.
Qed.

Lemma nanmedian_all_missing (row : list fl) : present row = [] -> nanmedian row = NaN.
Proof.
  intros Hp. unfold nanmedian.
  destruct row as [|x t].
  - now apply nanmean_all_missing.
  - now rewrite Hp.
Qed.

Lemma copyto_map_isnan (f : fl -> fl) (v : fl) (row : list fl) :
  copyto (map f row) v (map isnan row)
  = map (fun x => if isnan x then v else f x) row.
Proof.
  unfold copyto. induction row as [|x t IH]; simpl; trivial.
  now rewrite IH.
Qed.

Lemma fold_skip_zero (h : fl -> fl) (row : list fl) :
  forall acc,
    fold_left fadd (map (fun x => if isnan x then Fin 0%Qc else h x) row) acc
    = fold_left fadd (map h (present row)) acc.
Proof.
  unfold present. induction row as [|x t IH]; intros acc; simpl; trivial.
  destruct (isnan x); simpl.
  - rewrite fadd_0_r. apply IH.
  - apply IH.
Qed.

Lemma fmul_0_0 : fmul (Fin 0%Qc) (Fin 0%Qc) = Fin 0%Qc.
Proof. simpl. f_equal; try ring. Qed.

(** The sum of squares that [nanvar] divides: the masked entries
    contribute nothing, the others their squared deviation from the mean of
    the present values. *)
Lemma nanvar_sum_of_squares (row : list fl) :
  let arr := fst (_replace_nan row (Fin 0%Qc)) in
  let mask := snd (_replace_nan row (Fin 0%Qc)) in
  let avg := fdiv (np_sum arr) (of_nat (count_false mask)) in
  np_sum (map (fun x => fmul x x)
              (copyto (map (fun x => fsub x avg) arr) (Fin 0%Qc) mask))
  = sum_sq_dev (present row).
Proof.
  simpl.
  change (np_sum (map (fun x => if isnan x then Fin 0%Qc else x) row))
    with (nansum row).
  rewrite nansum_present, count_false_present.
  fold (np_mean (present row)).
  set (avg := np_mean (present row)).
  rewrite map_map, copyto_map_isnan, map_map.
  unfold sum_sq_dev, np_sum. fold avg.
  rewrite <- (fold_skip_zero (fun x => fmul (fsub x avg) (fsub x avg)) row).
  f_equal. apply map_ext. intros x.
  destruct (isnan x) eqn:E.
  - apply fmul_0_0.
  - reflexivity.
Qed.

Lemma nanvar_ddof1 (row : list fl) :
  nanvar row 1
  = if length (present row) <? 2 then NaN
    else fdiv (sum_sq_dev (present row))
              (of_Z (Z.of_nat (length (present row)) - 1)).
Proof.
  unfold nanvar.
  pose proof (nanvar_sum_of_squares row) as H. simpl in H. simpl.
  rewrite H, count_false_present.
  destruct (length (present row) <? 2) eqn:L.
  - apply Nat.ltb_lt in L.
    destruct (Z.of_nat (length (present row)) - 1 <=? 0)%Z eqn:D; trivial.
    apply Z.leb_gt in D. lia.
  - apply Nat.ltb_ge in L.
    destruct (Z.of_nat (length (present row)) - 1 <=? 0)%Z eqn:D; trivial.
    apply Z.leb_le in D. lia.
Qed.

Section NumericClaims.

Variable sqrt_Qc : Qc -> Qc.

Local Abbreviation apply_builtin := (apply_builtin sqrt_Qc).
Local Abbreviation fsqrt := (fsqrt sqrt_Qc).

(** C3.  On every row the built-in reductions [var] and [std] (and their
    aliases [np.var], [np.std]) divide the sum of the squared deviations of
    the non-missing values by the number of non-missing values minus 1, a
    degrees-of-freedom correction of 1, [std] being the square root of
    [var]; on a row with fewer than 2 non-missing values both return
    not-a-number, whatever the missing-value policy. *)
Theorem std_var_sample_semantics (row : list fl) (name : string) :
  let p := present row in
  let n := length p in
  (In name ["var"; "np.var"] ->
     (n < 2 -> apply_builtin name row = Some (Ok NaN)) /\
     (2 <= n ->
        apply_builtin name row
        = Some (Ok (fdiv (sum_sq_dev p) (of_Z (Z.of_nat n - 1)))))) /\
  (In name ["std"; "np.std"] ->
     (n < 2 -> apply_builtin name row = Some (Ok NaN)) /\
     (2 <= n ->
        apply_builtin name row
        = Some (Ok (fsqrt (fdiv (sum_sq_dev p) (of_Z (Z.of_nat n - 1))))))).
Proof.
  intros p n. split; intros Hn.
  - assert (E : apply_builtin name row = Some (Ok (nanvar row 1))).
    { simpl in Hn. destruct Hn as [<-|[<-|[]]]; reflexivity. }
    rewrite E, nanvar_ddof1. fold p. fold n. split; intros L.
    + apply Nat.ltb_lt in L. now rewrite L.
    + apply Nat.ltb_ge in L. now rewrite L.
  - assert (E : apply_builtin name row = Some (Ok (nanstd sqrt_Qc row 1))).
    { simpl in Hn. destruct Hn as [<-|[<-|[]]]; reflexivity. }
    rewrite E. unfold nanstd. rewrite nanvar_ddof1. fold p. fold n.
    split; intros L.
    + apply Nat.ltb_lt in L. now rewrite L.
    + apply Nat.ltb_ge in L. now rewrite L.
Qed.

(** C10.  On a row in which every input value is missing, the built-in
    reduction [sum] (alias [np.sum]) returns 0 and the built-in reduction
    [prod] (alias [np.prod]) returns 1: the convention of [np.nansum] and
    [np.nanprod], not not-a-number. *)
Theorem all_missing_sum_prod (row : list fl) (name : string) :
  present row = [] ->
  (In name ["sum"; "np.sum"] -> apply_builtin name row = Some (Ok (Fin 0%Qc))) /\
  (In name ["prod"; "np.prod"] -> apply_builtin name row = Some (Ok (Fin 1%Qc))).
Proof.
  intros Hp. split; intros Hn.
  - assert (E : apply_builtin name row = Some (Ok (nansum row))).
    { simpl in Hn. destruct Hn as [<-|[<-|[]]]; reflexivity. }
    rewrite E, nansum_present, Hp. reflexivity.
  - assert (E : apply_builtin name row = Some (Ok (nanprod row))).
    { simpl in Hn. destruct Hn as [<-|[<-|[]]]; reflexivity. }
    rewrite E, nanprod_present, Hp. reflexivity.
Qed.

End NumericClaims.

(* ====================================================================== *)
(** ** Properties of the constructor                                       *)
(* ====================================================================== *)

Lemma py_set_length_le {A} (eqb : A -> A -> bool) (l : list A) :
  length (py_set eqb l) <= length l.
Proof.
  induction l as [|x t IH]; simpl; trivial.
  destruct (existsb (eqb x) t); simpl; lia.
Qed.

(** A list as long as its set has no element equal to a later one. *)
Lemma py_set_full {A} (eqb : A -> A -> bool) (x : A) (t : list A) :
  length (py_set eqb (x :: t)) = length (x :: t) ->
  existsb (eqb x) t = false /\ length (py_set eqb t) = length t.
Proof.
  simpl. pose proof (py_set_length_le eqb t) as L.
  destruct (existsb (eqb x) t); simpl; intros H; split; trivial; lia.
Qed.

Lemma py_set_NoDup {A} (eqb : A -> A -> bool) (l : list A) :
  (forall a, eqb a a = true) ->
  length (py_set eqb l) = length l -> NoDup l.
Proof.
  intros Hrefl. induction l as [|x t IH]; intros H.
  - constructor.
  - apply py_set_full in H. destruct H as [Hx Ht].
    constructor; auto.
    intros Hin.
    assert (existsb (eqb x) t = true) as E
        by (apply existsb_exists; exists x; auto).
    congruence.
Qed.

Lemma key_eqb_refl (k : key) : key_eqb k k = true.
Proof.
  destruct k as [s|z|b]; simpl.
  - apply String.eqb_refl.
  - apply Z.eqb_refl.
  - now destruct b.
Qed.

Lemma all_as_length {A} (f : PyVal -> option A) (l : list PyVal) (r : list A) :
  all_as f l = Some r -> length r = length l.
Proof.
  revert r. induction l as [|v t IH]; simpl; intros r H.
  - now injection H as <-.
  - destruct (f v); [|discriminate].
    destruct (all_as f t); [|discriminate].
    injection H as <-. simpl. f_equal. now apply IH.
Qed.

Lemma all_as_key_spec (l : list PyVal) (ks : list key) :
  all_as as_key l = Some ks ->
  Forall is_int_or_str l /\
  forall v, In v l -> exists k, as_key v = Some k /\ In k ks.
Proof.
  revert ks. induction l as [|v t IH]; simpl; intros ks H.
  - split; [constructor | intros ? []].
  - destruct (as_key v) as [k|] eqn:K; [|discriminate].
    destruct (all_as as_key t) as [r|]; [|discriminate].
    injection H as <-.
    destruct (IH r eq_refl) as [F I]. split.
    + constructor; trivial. destruct v; simpl in *; trivial; discriminate.
    + intros w [<-|Hw].
      * exists k. simpl. auto.
      * destruct (I w Hw) as [k' [? ?]]. exists k'. simpl. auto.
Qed.

Lemma as_key_injective (v w : PyVal) (k : key) :
  as_key v = Some k -> as_key w = Some k -> v = w.
Proof.
  destruct v, w; simpl; intros H1 H2; try discriminate; congruence.
Qed.

(** What the constructor accepts as [variables] is what the
    specification asks for. *)
Lemma accepted_variables_valid (vars : list PyVal) (ks : list key) :
  all_as as_key vars = Some ks ->
  (length ks <? 2) || negb (length (py_set key_eqb ks) =? length ks) = false ->
  valid_variables (PList vars).
Proof.
  intros K C.
  apply orb_false_elim in C. destruct C as [C1 C2].
  apply Nat.ltb_ge in C1. apply negb_false_iff, Nat.eqb_eq in C2.
  exists vars. split; [reflexivity|].
  destruct (all_as_key_spec _ _ K) as [F _].
  rewrite <- (all_as_length _ _ _ K).
  repeat split; trivial.
  clear C1 F. revert ks K C2.
  induction vars as [|v t IH]; intros ks K C2; [constructor|].
  simpl in K.
  destruct (as_key v) as [k|] eqn:Kv; [|discriminate].
  destruct (all_as as_key t) as [r|] eqn:Kt; [|discriminate].
  injection K as <-.
  apply py_set_full in C2. destruct C2 as [Hk Hr].
  constructor; [|now apply (IH r)].
  intros Hin.
  destruct (all_as_key_spec _ _ Kt) as [_ I].
  destruct (I v Hin) as [k' [Kv' Hk']].
  assert (k' = k) as -> by congruence.
  assert (existsb (key_eqb k) r = true) as E.
  { apply existsb_exists. exists k. split; trivial. apply key_eqb_refl. }
  congruence.
Qed.

(** C9.  Construction raises ConfigError (a [ValueError]) unless
    [variables] is a list of strings or integers, of length at least 2,
    without duplicate entries, whatever the other arguments are; in
    particular [variables=["x1"]] raises ConfigError. *)
Theorem variables_are_validated :
  (forall variables func names missing_values drop_original,
      ~ valid_variables variables ->
      __init__ variables func names missing_values drop_original
      = Raise ConfigError) /\
  (forall func names missing_values drop_original,
      __init__ (PList [PStr "x1"]) func names missing_values drop_original
      = Raise ConfigError).
Proof.
  split.
  - intros variables func names mv dr Hinv.
    unfold __init__.
    destruct variables as [| | | |vars| | |]; try reflexivity.
    destruct (all_as as_key vars) as [ks|] eqn:K; [|reflexivity].
    destruct ((length ks <? 2)
              || negb (length (py_set key_eqb ks) =? length ks)) eqn:C;
      [reflexivity|].
    exfalso. apply Hinv. now apply (accepted_variables_valid vars ks).
  - intros func names mv dr. reflexivity.
Qed.

Lemma all_as_str_spec (l : list PyVal) (ss : list string) :
  all_as as_str l = Some ss -> l = map PStr ss.
Proof.
  revert ss. induction l as [|v t IH]; simpl; intros ss H.
  - now injection H as <-.
  - destruct (as_str v) as [s|] eqn:S; [|discriminate].
    destruct (all_as as_str t) as [r|]; [|discriminate].
    injection H as <-. simpl.
    destruct v; simpl in S; try discriminate. injection S as ->.
    f_equal. now apply IH.
Qed.

(** A string is wrapped into a one-element list and a list is kept as it
    is. *)
Lemma func_string_wrapped variables s names mv dr self :
  __init__ variables (PStr s) names mv dr = Ok self ->
  func self = PList [PStr s].
Proof.
  unfold __init__. intros H.
  destruct variables as [| | | |vars| | |]; try discriminate.
  destruct (all_as as_key vars) as [ks|]; [|discriminate].
  destruct ((length ks <? 2) || _); [discriminate|].
  unfold rbind in H.
  repeat match type of H with
         | match ?x with _ => _ end = _ => destruct x; try discriminate
         end.
  all: now injection H as <-.
Qed.

Lemma func_list_kept variables fs names mv dr self :
  __init__ variables (PList fs) names mv dr = Ok self ->
  func self = PList fs.
Proof.
  unfold __init__. intros H.
  destruct variables as [| | | |vars| | |]; try discriminate.
  destruct (all_as as_key vars) as [ks|]; [|discriminate].
  destruct ((length ks <? 2) || _); [discriminate|].
  unfold rbind in H.
  repeat match type of H with
         | match ?x with _ => _ end = _ => destruct x; try discriminate
         end.
  all: now injection H as <-.
Qed.

(** C4, at a single callable.  The constructor stores a single callable as
    it is, not as the one-element list holding it. *)
Theorem single_callable_is_not_wrapped (c : callable) :
  exists self,
    __init__ x1_x2 (PCallable c) PNone "raise" false = Ok self /\
    func self = PCallable c.
Proof.
  eexists. split; reflexivity.
Qed.

(** X5.  For a string or a list [func], a name list that is provided is checked
    against the number of reduction specifications. *)
Lemma names_are_validated_for_lists variables func names mv dr fs :
  match func with
  | PStr _ => fs = [func]
  | PList l => fs = l
  | _ => False
  end ->
  names <> PNone ->
  ~ valid_names names (length fs) ->
  __init__ variables func names mv dr = Raise ConfigError.
Proof.
  intros Hf Hn Hinv.
  assert (exists l, (match func with
                     | PStr _ => PList [func] | PList _ => func | _ => func
                     end) = PList l /\ length l = length fs) as [l [El Ll]].
  { destruct func; try contradiction; subst; eexists; split; reflexivity. }
  unfold __init__. rewrite El.
  destruct variables as [| | | |vars| | |]; try reflexivity.
  destruct (all_as as_key vars) as [ks|]; [|reflexivity].
  destruct ((length ks <? 2) || _); [reflexivity|].
  destruct names as [| | | |ns| | |]; try reflexivity; [now elim Hn|].
  destruct (all_as as_str ns) as [ss|] eqn:S; [|reflexivity].
  destruct (negb (length (py_set String.eqb ss) =? length ss)) eqn:U;
    [reflexivity|].
  simpl.
  destruct (negb (length ss =? length l)) eqn:C; [reflexivity|].
  exfalso. apply Hinv.
  apply negb_false_iff, Nat.eqb_eq in U.
  apply negb_false_iff, Nat.eqb_eq in C.
  exists ss. split; [f_equal; now apply all_as_str_spec|]. split; [|congruence].
  apply (py_set_NoDup String.eqb); trivial. apply String.eqb_refl.
Qed.

(** C5, at a single callable.  With a single callable as [func], which is
    one reduction specification, the constructor accepts a list of two
    names. *)
Theorem callable_skips_the_name_count (c : callable) :
  exists self,
    __init__ x1_x2 (PCallable c) (PList [PStr "a"; PStr "b"]) "raise" false
    = Ok self /\
    func self = PCallable c /\
    new_variables_names self = Some ["a"; "b"].
Proof.
  eexists. split; [reflexivity|]. split; reflexivity.
Qed.

(* ====================================================================== *)
(** ** Properties of the derivation of names                               *)
(* ====================================================================== *)

(** Explicit names are handed back as they are. *)
Lemma explicit_names_verbatim (self : MathFeatures) (names : list string) :
  new_variables_names self = Some names ->
  _get_new_features_name self = Ok names.
Proof.
  intros H. unfold _get_new_features_name. now rewrite H.
Qed.

(** X6.  For a list of specifications, each derived name is the identity of the
    specification followed by the names of the input columns, all joined by
    underscores. *)
Lemma derived_names_for_lists (self : MathFeatures) (st : FittedState)
    (fs : list PyVal) (idents : list string) :
  new_variables_names self = None ->
  fitted self = Some st ->
  func self = PList fs ->
  Forall2 (fun f ident => identity f = Some ident) fs idents ->
  _get_new_features_name self
  = Ok (map (fun ident => derived_name ident (variables_ st)) idents).
Proof.
  intros Hn Hs Hf Hid. unfold _get_new_features_name.
  rewrite Hn, Hs, Hf. simpl.
  assert (mapM (fun fun_ : PyVal =>
                  match fun_ with
                  | PStr s => Ok s
                  | PCallable c =>
                      match __name__ c with
                      | Some n => Ok n
                      | None => Raise AttributeError
                      end
                  | _ => Raise AttributeError
                  end) fs = Ok idents) as ->.
  { clear Hf. induction Hid as [|f ident fs' ids' H1 _ IH]; simpl; trivial.
    rewrite IH.
    destruct f; simpl in H1; try discriminate.
    - now injection H1 as ->.
    - now rewrite H1. }
  reflexivity.
Qed.

(** C6, at a single callable.  For a fitted instance built from a single
    callable and no explicit names, no name is derived: the method fails
    on a variable that was never assigned. *)
Theorem single_callable_has_no_derived_name :
  exists self,
    fitted_instance (PCallable a_callable) PNone "raise" false table_A = Ok self /\
    new_variables_names self = None /\
    identity (func self) = Some "sum" /\
    _get_new_features_name self = Raise UnboundLocalError.
Proof.
  eexists. split; [reflexivity|]. repeat split.
Qed.

(* ====================================================================== *)
(** ** The store during [transform]                                        *)
(* ====================================================================== *)

Lemma nth_error_app_old {A} (h l : list A) (i : nat) (a : A) :
  nth_error h i = Some a -> nth_error (h ++ l) i = Some a.
Proof.
  intros H. rewrite nth_error_app1; trivial.
  apply nth_error_Some. congruence.
Qed.

Lemma nth_error_app_new {A} (h : list A) (a : A) :
  nth_error (h ++ [a]) (length h) = Some a.
Proof.
  rewrite nth_error_app2 by lia. now rewrite Nat.sub_diag.
Qed.

Lemma update_app_new {A} (h : list A) (a b : A) :
  update (h ++ [a]) (length h) b = h ++ [b].
Proof.
  induction h as [|x t IH]; simpl; trivial. now rewrite IH.
Qed.

Section Store.

Variable sqrt_Qc : Qc -> Qc.
Variable agg_by_name : string -> option (list fl -> fl).

Local Abbreviation np_step := (np_step sqrt_Qc agg_by_name).
Local Abbreviation np_steps := (np_steps sqrt_Qc agg_by_name).
Local Abbreviation np_transform := (np_transform sqrt_Qc agg_by_name).
Local Abbreviation transform := (transform sqrt_Qc agg_by_name).
Local Abbreviation transform_table := (transform_table sqrt_Qc agg_by_name).

(** The loop of [np_transform] works on the one table it allocated. *)
Lemma for_each_np_steps (h : heap) (X : ref) (d : DataFrame)
    (names : list string) (vars : list key) :
  nth_error h X = Some d ->
  forall ps r, exists r',
    for_each ps
      (fun p =>
         d <~ load X ;;
         r <~ load (length h) ;;
         r' <~ lift (np_step d names vars p r) ;;
         store (length h) r') (h ++ [r])
    = (status (np_steps d names vars ps r) tt, h ++ [r'])
    /\ (forall rr, np_steps d names vars ps r = Ok rr -> r' = rr).
Proof.
  intros HX ps. induction ps as [|p t IH]; intros r.
  - exists r. simpl. split; trivial. intros rr E. now injection E.
  - simpl. unfold bind at 1. unfold bind at 1. unfold load at 1.
    rewrite (nth_error_app_old h [r] X d HX).
    unfold bind at 1. unfold load at 1. rewrite nth_error_app_new.
    unfold bind at 1. unfold lift at 1.
    destruct (np_step d names vars p r) as [r1|e] eqn:E1.
    + unfold store at 1. rewrite update_app_new.
      destruct (IH r1) as [r' [Hrun Hok]]. exists r'.
      rewrite Hrun. simpl. split; trivial.
    + exists r. simpl. split; trivial. discriminate.
Qed.

Lemma np_transform_run (h : heap) (X : ref) (d : DataFrame)
    (names : list string) (vars : list key) (f : PyVal) :
  nth_error h X = Some d ->
  let R := fs <- py_iter f ;; np_steps d names vars (enumerate fs) pd_DataFrame in
  exists r',
    np_transform X names vars f h = (status R (length h), h ++ [r'])
    /\ (forall rr, R = Ok rr -> r' = rr).
Proof.
  intros HX R. subst R. unfold np_transform.
  unfold bind at 1. unfold alloc. cbv beta iota.
  unfold bind at 1. unfold lift at 1.
  destruct (py_iter f) as [fs|e]; cbv beta iota.
  - destruct (for_each_np_steps h X d names vars HX (enumerate fs) pd_DataFrame)
      as [r' [Hrun Hok]].
    exists r'. unfold bind at 1. rewrite Hrun. simpl. split; trivial.
    now destruct (np_steps d names vars (enumerate fs) pd_DataFrame).
  - exists pd_DataFrame. split; trivial. discriminate.
Qed.

(** [transform] allocates two tables, the results and the returned one,
    and touches no other; the returned table is the one [transform_table]
    computes from the caller's. *)
Lemma transform_run (self : MathFeatures) (h : heap) (X : ref) (d : DataFrame) :
  nth_error h X = Some d ->
  exists ext,
    transform self X h
    = (status (transform_table self d) (S (length h)), h ++ ext)
    /\ (forall dy, transform_table self d = Ok dy ->
                   nth_error (h ++ ext) (S (length h)) = Some dy).
Proof.
  intros HX. unfold transform, transform_table.
  unfold _check_transform_input_and_state.
  unfold bind at 1. unfold bind at 1. unfold load at 1. rewrite HX.
  unfold bind at 1. unfold lift at 1.
  destruct (check_table self d) as [[]|e]; simpl;
    [|exists []; rewrite app_nil_r; split; [trivial|discriminate]].
  unfold bind at 1. unfold lift at 1.
  destruct (_get_new_features_name self) as [names|e]; simpl;
    [|exists []; rewrite app_nil_r; split; [trivial|discriminate]].
  unfold bind at 1.
  destruct (np_transform_run h X d names (variables self) (func self) HX)
    as [r' [Hrun Hok]].
  rewrite Hrun. clear Hrun.
  destruct (py_iter (func self)) as [fs|e]; simpl in *;
    [|exists [r']; split; [trivial|discriminate]].
  destruct (np_steps d names (variables self) (enumerate fs) pd_DataFrame)
    as [R|e]; simpl in *;
    [|exists [r']; split; [trivial|discriminate]].
  rewrite (Hok R eq_refl). clear Hok r'.
  unfold bind at 1. unfold pd_concat. unfold bind at 1. unfold load at 1.
  rewrite (nth_error_app_old h [R] X d HX).
  unfold bind at 1. unfold load at 1. rewrite nth_error_app_new.
  unfold bind at 1. unfold lift at 1.
  destruct (concat_axis1 d R) as [Y|e]; simpl;
    [|exists [R]; split; [trivial|discriminate]].
  unfold alloc.
  assert (L : length (h ++ [R]) = S (length h))
    by (rewrite length_app; simpl; lia).
  destruct (drop_original self).
  - unfold bind at 1. unfold drop_inplace. unfold bind at 1. unfold load at 1.
    rewrite nth_error_app_new.
    unfold bind at 1. unfold lift at 1.
    destruct (drop Y (variables self)) as [Y'|e]; simpl.
    + unfold store. rewrite update_app_new. unfold ret.
      exists [R; Y']. rewrite L.
      change (h ++ [R; Y']) with (h ++ [R] ++ [Y']). rewrite app_assoc.
      split; trivial. intros dy E. injection E as <-.
      change (nth_error ((h ++ [R]) ++ [Y']) (S (length h)) = Some Y').
      rewrite <- L. apply nth_error_app_new.
    + exists [R; Y].
      change (h ++ [R; Y]) with (h ++ [R] ++ [Y]). rewrite app_assoc.
      split; trivial. discriminate.
  - unfold bind at 1. unfold ret.
    exists [R; Y]. rewrite L.
    change (h ++ [R; Y]) with (h ++ [R] ++ [Y]). rewrite app_assoc.
    split; trivial. intros dy E. injection E as <-.
    change (nth_error ((h ++ [R]) ++ [Y]) (S (length h)) = Some Y).
    rewrite <- L. apply nth_error_app_new.
Qed.

Lemma transform_returns (self : MathFeatures) (h h' : heap) (X Y : ref)
    (d : DataFrame) :
  nth_error h X = Some d ->
  transform self X h = (Ok Y, h') ->
  exists dy, transform_table self d = Ok dy /\ nth_error h' Y = Some dy.
Proof.
  intros HX HT.
  destruct (transform_run self h X d HX) as [ext [Hrun Hok]].
  rewrite HT in Hrun.
  destruct (transform_table self d) as [dy|e]; simpl in Hrun; [|discriminate].
  exists dy. split; trivial.
  injection Hrun as -> ->. now apply Hok.
Qed.

(** C8.  Calling [transform] leaves the caller's table as it was, the same
    columns and the same values, whether the call returns or raises and also
    when [drop_original] is set: the columns are dropped from the table
    that [pd.concat] built. *)
Theorem transform_leaves_input_unchanged (self : MathFeatures) (h : heap)
    (X : ref) (d : DataFrame) :
  nth_error h X = Some d ->
  nth_error (snd (transform self X h)) X = Some d.
Proof.
  intros HX.
  destruct (transform_run self h X d HX) as [ext [Hrun _]].
  rewrite Hrun. simpl. now apply nth_error_app_old.
Qed.

End Store.

(* ====================================================================== *)
(** ** The columns of the returned table                                   *)
(* ====================================================================== *)

Lemma key_eqb_sym (a b : key) : key_eqb a b = key_eqb b a.
Proof.
  destruct a as [s|z|x], b as [t|w|y]; simpl; trivial.
  - apply String.eqb_sym.
  - apply Z.eqb_sym.
  - apply Z.eqb_sym.
  - apply Z.eqb_sym.
  - apply Z.eqb_sym.
Qed.

Lemma key_eqb_trans (a b c : key) :
  key_eqb a b = true -> key_eqb b c = true -> key_eqb a c = true.
Proof.
  destruct a as [s|z|x], b as [t|w|y], c as [u|v|q]; simpl;
    try discriminate;
    rewrite ?String.eqb_eq, ?Z.eqb_eq; congruence.
Qed.

Lemma key_in_In (k : key) (l : list key) : In k l -> key_in k l = true.
Proof.
  intros H. apply existsb_exists. exists k. split; trivial. apply key_eqb_refl.
Qed.

Lemma key_in_eqb (a b : key) (l : list key) :
  key_eqb a b = true -> key_in a l = key_in b l.
Proof.
  intros E. unfold key_in.
  induction l as [|x t IH]; simpl; trivial. rewrite IH. f_equal.
  destruct (key_eqb a x) eqn:A, (key_eqb b x) eqn:B; trivial.
  - rewrite key_eqb_sym in E. now rewrite (key_eqb_trans b a x E A) in B.
  - now rewrite (key_eqb_trans a b x E B) in A.
Qed.

Lemma mapM_ok_Forall2 {A B} (f : A -> result B) (l : list A) (r : list B) :
  mapM f l = Ok r -> Forall2 (fun a b => f a = Ok b) l r.
Proof.
  revert r. induction l as [|x t IH]; simpl; intros r H.
  - injection H as <-. constructor.
  - destruct (f x) as [y|] eqn:E; [|discriminate]. simpl in H.
    destruct (mapM f t) as [ys|]; [|discriminate]. simpl in H.
    injection H as <-. constructor; auto.
Qed.

Lemma reindex_frame_labels (df : DataFrame) (target : list Z)
    (cols : list (key * list fl)) :
  reindex_frame df target = Ok cols -> map fst cols = columns df.
Proof.
  unfold reindex_frame, columns. intros H.
  apply mapM_ok_Forall2 in H.
  induction H as [|c c' l l' H1 _ IH]; simpl; trivial.
  rewrite IH. f_equal.
  destruct (reindex (index df) (snd c) target); [|discriminate].
  simpl in H1. now injection H1 as <-.
Qed.

Lemma concat_axis1_columns (a b y : DataFrame) :
  concat_axis1 a b = Ok y -> columns y = columns a ++ columns b.
Proof.
  unfold concat_axis1. intros H.
  destruct (reindex_frame a _) as [ca|] eqn:A; [|discriminate].
  destruct (reindex_frame b _) as [cb|] eqn:B; [|discriminate].
  simpl in H. injection H as <-. unfold columns at 1. simpl.
  rewrite map_app.
  now rewrite (reindex_frame_labels _ _ _ A), (reindex_frame_labels _ _ _ B).
Qed.

Lemma filter_labels (P : key -> bool) (l : list (key * list fl)) :
  map fst (filter (fun c : key * list fl => P (fst c)) l) = filter P (map fst l).
Proof.
  induction l as [|c t IH]; simpl; trivial.
  destruct (P (fst c)); simpl; now rewrite IH.
Qed.

Lemma drop_columns (y y' : DataFrame) (names : list key) :
  drop y names = Ok y' ->
  columns y' = filter (fun k => negb (key_in k names)) (columns y)
  /\ index y' = index y.
Proof.
  unfold drop. destruct (forallb _ names); [|discriminate].
  intros H. injection H as <-. unfold columns. simpl. split; trivial.
  apply (filter_labels (fun k => negb (key_in k names))).
Qed.

Lemma check_table_variables (self : MathFeatures) (d : DataFrame) :
  check_table self d = Ok tt ->
  forall k, In k (variables self) -> key_in k (columns d) = true.
Proof.
  unfold check_table. destruct (fitted self); [|discriminate].
  destruct (negb (length (columns d) =? _)); [discriminate|].
  destruct (forallb _ (variables self)) eqn:F; [|discriminate].
  intros _ k Hk. rewrite forallb_forall in F. now apply F.
Qed.

Section Columns.

Variable sqrt_Qc : Qc -> Qc.
Variable agg_by_name : string -> option (list fl -> fl).

Local Abbreviation transform := (transform sqrt_Qc agg_by_name).
Local Abbreviation transform_table := (transform_table sqrt_Qc agg_by_name).

Lemma transform_table_columns (self : MathFeatures) (d dy : DataFrame) :
  transform_table self d = Ok dy ->
  exists new,
    columns dy
    = (if drop_original self
       then filter (fun k => negb (key_in k (variables self)))
                   (columns d ++ new)
       else columns d ++ new)
    /\ forall k, In k (variables self) -> key_in k (columns d) = true.
Proof.
  unfold transform_table. intros H.
  destruct (check_table self d) as [[]|] eqn:C; [|discriminate]. simpl in H.
  destruct (_get_new_features_name self) as [names|]; [|discriminate].
  simpl in H.
  destruct (py_iter (func self)) as [fs|]; [|discriminate]. simpl in H.
  destruct (np_steps _ _ _ _ _ _ _) as [R|]; [|discriminate]. simpl in H.
  destruct (concat_axis1 d R) as [Y|] eqn:Y0; [|discriminate]. simpl in H.
  apply concat_axis1_columns in Y0.
  exists (columns R). split; [|now apply check_table_variables].
  destruct (drop_original self).
  - apply drop_columns in H. destruct H as [H _]. now rewrite H, Y0.
  - injection H as <-. exact Y0.
Qed.

(** C7.  For a fitted instance and an accepted table: with [drop_original]
    set, the columns of the input table that are missing from the returned
    table are exactly the input columns, every one of which was a column of
    the input table, and the other columns keep their order at the head of
    the returned table; without [drop_original], every column of the input
    table is in the returned table at its original position. *)
Theorem drop_original_removes_exactly_inputs (self : MathFeatures)
    (h h' : heap) (X Y : ref) (d : DataFrame) :
  nth_error h X = Some d ->
  transform self X h = (Ok Y, h') ->
  exists dy new,
    nth_error h' Y = Some dy /\
    (drop_original self = true ->
       (forall k, In k (columns d) ->
          (key_in k (columns dy) = false <-> key_in k (variables self) = true))
       /\ (forall k, In k (variables self) -> key_in k (columns d) = true)
       /\ columns dy
          = filter (fun k => negb (key_in k (variables self))) (columns d) ++ new)
    /\ (drop_original self = false -> columns dy = columns d ++ new).
Proof.
  intros HX HT.
  destruct (transform_returns _ _ self h h' X Y d HX HT) as [dy [Htab Hdy]].
  destruct (transform_table_columns self d dy Htab) as [new [Hcols Hvars]].
  destruct (drop_original self) eqn:D.
  - exists dy, (filter (fun k => negb (key_in k (variables self))) new).
    rewrite filter_app in Hcols.
    split; trivial. split; [|discriminate].
    intros _. repeat split; trivial.
    + intros Hout.
      destruct (key_in k (variables self)) eqn:V; trivial.
      assert (In k (columns dy)) as I.
      { rewrite Hcols. apply in_or_app. left. apply filter_In.
        split; trivial. now rewrite V. }
      apply key_in_In in I. congruence.
    + intros V.
      destruct (key_in k (columns dy)) eqn:O; trivial.
      apply existsb_exists in O. destruct O as [c [Hc E]].
      assert (negb (key_in c (variables self)) = true) as N.
      { rewrite Hcols, <- filter_app in Hc. now apply filter_In in Hc. }
      rewrite <- (key_in_eqb k c _ E), V in N. discriminate.
  - exists dy, new. split; trivial. split; [discriminate|]. now intros _.
Qed.

End Columns.

(* ====================================================================== *)
(** ** Tables with the default row labels                                  *)
(* ====================================================================== *)

Lemma RangeIndex_length (n : nat) : length (RangeIndex n) = n.
Proof. unfold RangeIndex. now rewrite length_map, length_seq. Qed.

Lemma index_eqb_refl (l : list Z) : index_eqb l l = true.
Proof. unfold index_eqb. now destruct (list_eq_dec Z.eq_dec l l). Qed.

Lemma reindex_same (idx : list Z) (v : list fl) : reindex idx v idx = Ok v.
Proof. unfold reindex. now rewrite index_eqb_refl. Qed.

Lemma mapM_length {A B} (f : A -> result B) (l : list A) (r : list B) :
  mapM f l = Ok r -> length r = length l.
Proof.
  intros H. apply mapM_ok_Forall2 in H.
  induction H; simpl; auto.
Qed.

Lemma values_length (df : DataFrame) : length (values df) = nrows df.
Proof. unfold values. now rewrite length_map, length_seq. Qed.

Lemma getitem_index (df sub : DataFrame) (names : list key) :
  getitem df names = Ok sub -> index sub = index df.
Proof.
  unfold getitem. destruct (mapM _ names); [|discriminate].
  simpl. intros H. now injection H as <-.
Qed.

Lemma firstn_S_nth_error {A} (l : list A) (i : nat) (a : A) :
  nth_error l i = Some a -> firstn (S i) l = firstn i l ++ [a].
Proof.
  revert i. induction l as [|x t IH]; intros [|i] H; simpl in *;
    try discriminate.
  - now injection H as ->.
  - f_equal. now apply IH.
Qed.

Lemma NoDup_nth_not_in_firstn {A} (l : list A) (i : nat) (a : A) :
  NoDup l -> nth_error l i = Some a -> ~ In a (firstn i l).
Proof.
  intros N. revert i. induction N as [|x t Hx _ IH]; intros [|i] H; simpl in *;
    try discriminate; try tauto.
  intros [->|Hin].
  - apply Hx. now apply nth_error_In in H.
  - now apply (IH i).
Qed.

Lemma key_in_KStr (s : string) (l : list string) :
  key_in (KStr s) (map KStr l) = true -> In s l.
Proof.
  unfold key_in. intros H. apply existsb_exists in H.
  destruct H as [k [Hk E]]. apply in_map_iff in Hk.
  destruct Hk as [t [<- Ht]]. simpl in E. apply String.eqb_eq in E. now subst.
Qed.

Lemma set_column_fresh (cols : list (key * list fl)) (name : key)
    (vals : list fl) :
  key_in name (map fst cols) = false ->
  set_column cols name vals = cols ++ [(name, vals)].
Proof. unfold set_column. now intros ->. Qed.

(** Assigning a column of the default labels to the table of results. *)
Lemma setitem_aligned (R : DataFrame) (name : key) (n : nat) (result : list fl) :
  index R = RangeIndex n \/ (index R = [] /\ data R = []) ->
  length result = n ->
  setitem R name {| s_index := RangeIndex n; s_values := result |}
  = Ok {| index := RangeIndex n; data := set_column (data R) name result |}.
Proof.
  intros HR HL. unfold setitem. simpl.
  destruct n as [|m].
  - assert (index R = []) as -> by (destruct HR as [H|[H _]]; exact H).
    destruct result; [|discriminate]. reflexivity.
  - destruct result as [|x t]; [discriminate|].
    destruct HR as [H|[H1 H2]].
    + rewrite H. simpl. now rewrite reindex_same.
    + rewrite H1, H2. simpl. now rewrite reindex_same.
Qed.

Section Aligned.

Variable sqrt_Qc : Qc -> Qc.
Variable agg_by_name : string -> option (list fl -> fl).

Local Abbreviation builtin := (builtin sqrt_Qc).
Local Abbreviation resolvable := (resolvable sqrt_Qc).
Local Abbreviation np_step := (np_step sqrt_Qc agg_by_name).
Local Abbreviation np_steps := (np_steps sqrt_Qc agg_by_name).
Local Abbreviation transform := (transform sqrt_Qc agg_by_name).
Local Abbreviation transform_table := (transform_table sqrt_Qc agg_by_name).

Lemma agg_length (f : PyVal) (block : list (list fl)) (r : list fl) :
  agg agg_by_name f block = Ok r -> length r = length block.
Proof.
  unfold agg. destruct f; try discriminate.
  - destruct (agg_by_name s); [|discriminate].
    intros H. injection H as <-. apply length_map.
  - intros H. injection H as <-. apply length_map.
Qed.

Lemma apply_over_axes_length (f : PyVal) (block : list (list fl)) (r : list fl) :
  apply_over_axes f block = Ok r -> length r = length block.
Proof.
  unfold apply_over_axes. destruct f; try discriminate.
  intros H. injection H as <-. apply length_map.
Qed.

(** One turn of the loop on a table with the default labels assigns one
    column of as many values as the table has rows, under the name at the
    position of the specification. *)
Lemma np_step_aligned (d : DataFrame) (names : list string) (vars : list key)
    (i : nat) (f : PyVal) (R R' : DataFrame) (n : nat) :
  index d = RangeIndex n ->
  resolvable f ->
  np_step d names vars (i, f) R = Ok R' ->
  exists name result,
    nth_error names i = Some name /\ length result = n /\
    setitem R (KStr name) {| s_index := RangeIndex n; s_values := result |}
    = Ok R'.
Proof.
  intros Hd Hres. unfold np_step.
  assert (Hsub : forall sub, getitem d vars = Ok sub ->
                   index sub = RangeIndex n /\ length (values sub) = n).
  { intros sub G. apply getitem_index in G.
    rewrite values_length. unfold nrows.
    now rewrite G, Hd, RangeIndex_length. }
  assert (Hname : forall name, list_getitem names i = Ok name ->
                    nth_error names i = Some name).
  { unfold list_getitem. intros name.
    destruct (nth_error names i); [|discriminate]. congruence. }
  destruct (builtin f) as [reduction|] eqn:B.
  - destruct (getitem d vars) as [sub|] eqn:G; [|discriminate]. simpl.
    destruct (Hsub sub eq_refl) as [_ Lv].
    destruct (mapM reduction (values sub)) as [result|] eqn:Mr;
      [|discriminate]. simpl.
    destruct (list_getitem names i) as [name|] eqn:Nm; [|discriminate]. simpl.
    intros H. exists name, result.
    apply mapM_length in Mr.
    assert (length result = n) as L by congruence.
    unfold pd_Series in H. rewrite L in H. auto.
  - destruct Hres as [Hb|[Hs|Hs]]; [contradiction| |]; rewrite Hs; simpl.
    + destruct (getitem d vars) as [sub|] eqn:G; [|discriminate]. simpl.
      destruct (Hsub sub eq_refl) as [_ Lv].
      destruct (apply_over_axes f (values sub)) as [result|] eqn:Mr;
        [|discriminate]. simpl.
      destruct (list_getitem names i) as [name|] eqn:Nm; [|discriminate]. simpl.
      intros H. exists name, result.
      apply apply_over_axes_length in Mr.
      assert (length result = n) as L by congruence.
      unfold pd_Series in H. rewrite L in H. auto.
    + destruct (getitem d vars) as [sub|] eqn:G; [|discriminate]. simpl.
      destruct (Hsub sub eq_refl) as [Is Lv].
      destruct (agg agg_by_name f (values sub)) as [result|] eqn:Mr;
        [|discriminate]. simpl.
      destruct (list_getitem names i) as [name|] eqn:Nm; [|discriminate]. simpl.
      intros H. exists name, result.
      apply agg_length in Mr.
      assert (length result = n) as L by congruence.
      rewrite Is in H. auto.
Qed.

Lemma np_steps_cons (d : DataFrame) (names : list string) (vars : list key)
    (p : nat * PyVal) (t : list (nat * PyVal)) (R : DataFrame) :
  np_steps d names vars (p :: t) R
  = rbind (np_step d names vars p R) (np_steps d names vars t).
Proof. reflexivity. Qed.

Lemma np_steps_aligned (d : DataFrame) (names : list string) (vars : list key)
    (n : nat) :
  index d = RangeIndex n ->
  NoDup names ->
  forall fs i R R',
    Forall resolvable fs ->
    results_inv n names i R ->
    np_steps d names vars (combine (seq i (length fs)) fs) R = Ok R' ->
    results_inv n names (i + length fs) R'.
Proof.
  intros Hd Hnd fs. induction fs as [|f t IH]; intros i R R' Hres Hinv H.
  - simpl in H. injection H as <-. now rewrite Nat.add_0_r.
  - change (combine (seq i (length (f :: t))) (f :: t))
      with ((i, f) :: combine (seq (S i) (length t)) t) in H.
    rewrite np_steps_cons in H.
    destruct (np_step d names vars (i, f) R) as [R1|] eqn:S1;
      [|discriminate].
    simpl in H.
    inversion Hres as [|? ? Hf Ht]; subst.
    destruct (np_step_aligned d names vars i f R R1 n Hd Hf S1)
      as [name [result [Hn [Hl Hset]]]].
    destruct Hinv as [Hc [Hi [Hlen Hidx]]].
    rewrite (setitem_aligned R (KStr name) n result Hidx Hl) in Hset.
    injection Hset as <-.
    assert (key_in (KStr name) (map fst (data R)) = false) as Fresh.
    { destruct (key_in (KStr name) (map fst (data R))) eqn:K; trivial.
      fold (columns R) in K. rewrite Hc in K. apply key_in_KStr in K.
      now elim (NoDup_nth_not_in_firstn names i name Hnd Hn). }
    rewrite (set_column_fresh _ _ _ Fresh) in H.
    replace (i + length (f :: t)) with (S i + length t) by (simpl; lia).
    refine (IH (S i) _ R' Ht _ H).
    unfold results_inv. repeat split.
    + unfold columns. cbn [data]. rewrite map_app. fold (columns R). rewrite Hc.
      rewrite (firstn_S_nth_error names i name Hn). now rewrite map_app.
    + apply nth_error_Some. congruence.
    + cbn [data]. apply Forall_app. split; trivial. constructor; trivial.
    + now left.
Qed.

End Aligned.

Lemma reindex_frame_same (df : DataFrame) (cols : list (key * list fl)) :
  mapM (fun c : key * list fl =>
          v <- reindex (index df) (snd c) (index df) ;; Ok (fst c, v)) cols
  = Ok cols.
Proof.
  induction cols as [|[k v] t IH]; simpl; trivial.
  rewrite reindex_same. simpl. now rewrite IH.
Qed.

Lemma union_index_empty (ia : list Z) : union_index ia [] = ia.
Proof.
  unfold union_index. destruct (index_eqb ia []); trivial.
  simpl. apply app_nil_r.
Qed.

Lemma union_index_same (ia : list Z) : union_index ia ia = ia.
Proof. unfold union_index. now rewrite index_eqb_refl. Qed.

(** Joining a table of the default row labels with its table of results
    puts the columns side by side. *)
Lemma concat_aligned (d R : DataFrame) (n i : nat) (names : list string) :
  index d = RangeIndex n ->
  results_inv n names i R ->
  concat_axis1 d R = Ok {| index := index d; data := data d ++ data R |}.
Proof.
  intros Hd [_ [_ [_ [HR|[HR HD]]]]]; unfold concat_axis1.
  - rewrite HR, <- Hd, union_index_same.
    unfold reindex_frame. rewrite ?HR, <- ?Hd.
    rewrite (reindex_frame_same d (data d)), (reindex_frame_same d (data R)).
    reflexivity.
  - rewrite HR, union_index_empty.
    unfold reindex_frame. rewrite reindex_frame_same.
    rewrite HD. reflexivity.
Qed.

Lemma In_firstn {A} (l : list A) (n : nat) (a : A) :
  In a (firstn n l) -> In a l.
Proof.
  revert n. induction l as [|x t IH]; intros [|n]; simpl; try tauto.
  intros [->|H]; eauto.
Qed.

Lemma filter_all {A} (P : A -> bool) (l : list A) :
  forallb P l = true -> filter P l = l.
Proof.
  induction l as [|x t IH]; simpl; trivial.
  intros H. apply andb_prop in H. destruct H as [-> H]. now rewrite IH.
Qed.

(* ====================================================================== *)
(** ** The values of the pre-existing columns                              *)
(* ====================================================================== *)

Lemma is_unique_NoDup (idx : list Z) : is_unique idx = true -> NoDup idx.
Proof.
  unfold is_unique. intros H. apply Nat.eqb_eq in H.
  apply (py_set_NoDup Z.eqb); trivial. apply Z.eqb_refl.
Qed.

Lemma get_loc_absent (idx : list Z) (l : Z) :
  existsb (Z.eqb l) idx = false -> get_loc idx l = None.
Proof.
  induction idx as [|x t IH]; simpl; trivial.
  intros H. apply orb_false_elim in H. destruct H as [H1 H2].
  rewrite Z.eqb_sym, H1. now rewrite IH.
Qed.

(** Taking the values of a column at its own labels gives the column. *)
Lemma take_labels_same (idx : list Z) (v : list fl) :
  NoDup idx -> length v = length idx -> take_labels idx v idx = v.
Proof.
  intros N. revert v. induction N as [|x t Hx _ IH]; intros v L.
  - now destruct v.
  - destruct v as [|a w]; [discriminate|]. simpl in L. injection L as L.
    unfold take_labels. simpl. rewrite Z.eqb_refl. f_equal.
    transitivity (take_labels t w t); [|now apply IH].
    unfold take_labels. apply map_ext_in. intros l Hl.
    destruct (Z.eqb x l) eqn:E.
    + apply Z.eqb_eq in E. subst. contradiction.
    + now destruct (get_loc t l).
Qed.

Lemma take_labels_absent (idx : list Z) (v : list fl) (ext : list Z) :
  forallb (fun l => negb (existsb (Z.eqb l) idx)) ext = true ->
  take_labels idx v ext = repeat NaN (length ext).
Proof.
  unfold take_labels. induction ext as [|l t IH]; simpl; trivial.
  intros H. apply andb_prop in H. destruct H as [H1 H2].
  apply negb_true_iff in H1. rewrite (get_loc_absent idx l H1).
  now rewrite IH.
Qed.

Lemma filter_forallb {A} (P : A -> bool) (l : list A) :
  forallb P (filter P l) = true.
Proof.
  induction l as [|x t IH]; simpl; trivial.
  destruct (P x) eqn:E; simpl; trivial. now rewrite E.
Qed.

(** Re-indexing a column on the joined index keeps its values and pads them
    with NaN for the labels that only the other table has. *)
Lemma reindex_union (ia ib : list Z) (v v' : list fl) :
  length v = length ia ->
  reindex ia v (union_index ia ib) = Ok v' ->
  v' = v ++ repeat NaN (length (union_index ia ib) - length ia).
Proof.
  intros L. unfold reindex.
  destruct (index_eqb ia (union_index ia ib)) eqn:E.
  - intros H. injection H as <-. unfold index_eqb in E.
    destruct (list_eq_dec Z.eq_dec ia (union_index ia ib)) as [<-|];
      [|discriminate].
    rewrite Nat.sub_diag. simpl. now rewrite app_nil_r.
  - destruct (is_unique ia) eqn:U; [|discriminate].
    intros H. injection H as <-.
    unfold union_index in *.
    destruct (index_eqb ia ib); [now rewrite index_eqb_refl in E|].
    unfold take_labels. rewrite map_app. fold (take_labels ia v ia).
    rewrite (take_labels_same ia v (is_unique_NoDup ia U) L). f_equal.
    rewrite length_app, Nat.add_comm, Nat.add_sub.
    apply take_labels_absent, filter_forallb.
Qed.

Lemma union_index_extends (ia ib : list Z) :
  union_index ia ib = ia ++ skipn (length ia) (union_index ia ib).
Proof.
  unfold union_index. destruct (index_eqb ia ib).
  - rewrite skipn_all. now rewrite app_nil_r.
  - now rewrite skipn_app, skipn_all, Nat.sub_diag.
Qed.

(** The join keeps the rows of the first table at the head of its columns:
    the labels that only the second table has come after them, and the
    columns of the first table hold NaN there. *)
Lemma concat_axis1_keeps_rows (a b y : DataFrame) :
  well_formed a ->
  concat_axis1 a b = Ok y ->
  exists ext new,
    index y = index a ++ ext /\
    data y
    = map (fun c : key * list fl => (fst c, snd c ++ repeat NaN (length ext)))
          (data a) ++ new.
Proof.
  intros W. unfold concat_axis1. intros H.
  destruct (reindex_frame a _) as [ca|] eqn:A; [|discriminate].
  destruct (reindex_frame b _) as [cb|] eqn:B; [|discriminate].
  simpl in H. injection H as <-. simpl.
  exists (skipn (length (index a)) (union_index (index a) (index b))), cb.
  split; [apply union_index_extends|]. f_equal.
  rewrite length_skipn.
  unfold reindex_frame in A. apply mapM_ok_Forall2 in A.
  unfold well_formed, nrows in W. clear B.
  induction A as [|c c' l l' H1 _ IH]; simpl; trivial.
  inversion W as [|? ? Wc Wl]; subst.
  rewrite (IH Wl). f_equal.
  destruct (reindex (index a) (snd c) _) as [v'|] eqn:R; [|discriminate].
  simpl in H1. injection H1 as <-. f_equal.
  now apply reindex_union.
Qed.

Lemma filter_map_labels (P : key -> bool) (g : list fl -> list fl)
    (l : list (key * list fl)) :
  filter (fun c : key * list fl => P (fst c))
         (map (fun c : key * list fl => (fst c, g (snd c))) l)
  = map (fun c : key * list fl => (fst c, g (snd c)))
        (filter (fun c : key * list fl => P (fst c)) l).
Proof.
  induction l as [|c t IH]; simpl; trivial.
  destruct (P (fst c)); simpl; now rewrite IH.
Qed.

Section Values.

Variable sqrt_Qc : Qc -> Qc.
Variable agg_by_name : string -> option (list fl -> fl).

Local Abbreviation transform := (transform sqrt_Qc agg_by_name).

(** X13.  Whatever the row labels of an accepted, well-formed table are, the
    returned table starts with the rows of the input table: its pre-existing
    columns (minus the dropped ones) keep their position and their values,
    followed by NaN on the rows that the join added. *)
Lemma transform_keeps_original_rows (self : MathFeatures) (h h' : heap)
    (X Y : ref) (d : DataFrame) :
  nth_error h X = Some d ->
  well_formed d ->
  transform self X h = (Ok Y, h') ->
  exists dy ext new,
    nth_error h' Y = Some dy /\
    index dy = index d ++ ext /\
    data dy
    = map (fun c : key * list fl => (fst c, snd c ++ repeat NaN (length ext)))
          (if drop_original self
           then filter (fun c : key * list fl =>
                          negb (key_in (fst c) (variables self))) (data d)
           else data d) ++ new.
Proof.
  intros HX W HT.
  destruct (transform_returns _ _ self h h' X Y d HX HT) as [dy [Htab Hdy]].
  unfold transform_table in Htab.
  destruct (check_table self d) as [[]|]; [|discriminate]. simpl in Htab.
  destruct (_get_new_features_name self) as [names|]; [|discriminate].
  simpl in Htab.
  destruct (py_iter (func self)) as [fs|]; [|discriminate]. simpl in Htab.
  destruct (np_steps _ _ _ _ _ _ _) as [R|]; [|discriminate]. simpl in Htab.
  destruct (concat_axis1 d R) as [Y0|] eqn:C; [|discriminate]. simpl in Htab.
  destruct (concat_axis1_keeps_rows d R Y0 W C) as [ext [new [Hi Hd]]].
  destruct (drop_original self).
  - unfold drop in Htab. destruct (forallb _ (variables self)); [|discriminate].
    injection Htab as <-.
    exists {| index := index Y0;
              data := filter (fun c : key * list fl =>
                                negb (key_in (fst c) (variables self)))
                             (data Y0) |},
           ext,
           (filter (fun c : key * list fl =>
                      negb (key_in (fst c) (variables self))) new).
    simpl. repeat split; trivial.
    rewrite Hd, filter_app. f_equal.
    apply (filter_map_labels (fun k => negb (key_in k (variables self)))
                             (fun v => v ++ repeat NaN (length ext))).
  - injection Htab as <-. exists Y0, ext, new. auto.
Qed.

End Values.

(* ====================================================================== *)
(** ** One new column per specification                                    *)
(* ====================================================================== *)


Section Labels.

Variable sqrt_Qc : Qc -> Qc.
Variable agg_by_name : string -> option (list fl -> fl).

Local Abbreviation builtin := (builtin sqrt_Qc).
Local Abbreviation resolvable := (resolvable sqrt_Qc).
Local Abbreviation np_step := (np_step sqrt_Qc agg_by_name).
Local Abbreviation np_steps := (np_steps sqrt_Qc agg_by_name).
Local Abbreviation transform := (transform sqrt_Qc agg_by_name).
Local Abbreviation transform_table := (transform_table sqrt_Qc agg_by_name).




End Labels.

(* ====================================================================== *)
(** ** The reductions under the "ignore" policy, and the scenarios         *)
(* ====================================================================== *)

Lemma fl_eqb_eq (x y : fl) : fl_eqb x y = true -> x = y.
Proof.
  destruct x, y; simpl; intros H; try discriminate; trivial.
  f_equal. now apply Qc_eq_bool_correct.
Qed.

Lemma column_eqb_eq (a b : list fl) : column_eqb a b = true -> a = b.
Proof.
  revert b. induction a as [|x s IH]; intros [|y t]; simpl; intros H;
    try discriminate; trivial.
  apply andb_prop in H. destruct H as [H1 H2].
  f_equal; [now apply fl_eqb_eq | now apply IH].
Qed.

Section IgnorePolicy.

Variable sqrt_Qc : Qc -> Qc.
Variable agg_by_name : string -> option (list fl -> fl).

Local Abbreviation apply_builtin := (apply_builtin sqrt_Qc).
Local Abbreviation transform := (transform sqrt_Qc agg_by_name).

(** C2.  Whatever the number of missing values of a row, as long as one
    value is present each of the built-in reductions [sum], [mean], [min],
    [max], [prod] and [median] (and its alias) returns the classical
    reduction of the present values of the row; on a row whose values are
    all missing, [mean], [min], [max] and [median] return not-a-number.  In
    particular, for x1=[1,NA,3], x2=[4,5,6], the policy "ignore" and
    func="mean", the new column mean_x1_x2 is [2.5, 5.0, 4.5]. *)
Theorem ignore_policy_reduces_present_values :
  (forall row, present row <> [] ->
     (forall name, In name ["sum"; "np.sum"] ->
        apply_builtin name row = Some (Ok (np_sum (present row)))) /\
     (forall name, In name ["mean"; "np.mean"] ->
        apply_builtin name row = Some (Ok (np_mean (present row)))) /\
     (forall name, In name ["min"; "np.min"] ->
        apply_builtin name row = Some (np_amin (present row))) /\
     (forall name, In name ["max"; "np.max"] ->
        apply_builtin name row = Some (np_amax (present row))) /\
     (forall name, In name ["prod"; "np.prod"] ->
        apply_builtin name row = Some (Ok (np_prod (present row)))) /\
     (forall name, In name ["median"; "np.median"] ->
        apply_builtin name row = Some (Ok (np_median (present row))))) /\
  (forall row, row <> [] -> present row = [] ->
     forall name,
       In name ["mean"; "np.mean"; "min"; "np.min";
                "max"; "np.max"; "median"; "np.median"] ->
       apply_builtin name row = Some (Ok NaN)) /\
  (exists self dy,
     fitted_instance (PStr "mean") PNone "ignore" false table_C = Ok self /\
     returned_table (transform self 0 [table_C]) = Some dy /\
     lookup_column dy (KStr "mean_x1_x2") = Some [dec 5 2; dec 5 1; dec 9 2]).
Proof.
  split; [|split].
  - intros row Hp. repeat split; intros name Hn.
    + replace (apply_builtin name row) with (Some (Ok (nansum row)))
        by (simpl in Hn; destruct Hn as [<-|[<-|[]]]; reflexivity).
      now rewrite nansum_present.
    + replace (apply_builtin name row) with (Some (Ok (nanmean row)))
        by (simpl in Hn; destruct Hn as [<-|[<-|[]]]; reflexivity).
      now rewrite nanmean_present.
    + replace (apply_builtin name row) with (Some (nanmin row))
        by (simpl in Hn; destruct Hn as [<-|[<-|[]]]; reflexivity).
      now rewrite nanmin_present.
    + replace (apply_builtin name row) with (Some (nanmax row))
        by (simpl in Hn; destruct Hn as [<-|[<-|[]]]; reflexivity).
      now rewrite nanmax_present.
    + replace (apply_builtin name row) with (Some (Ok (nanprod row)))
        by (simpl in Hn; destruct Hn as [<-|[<-|[]]]; reflexivity).
      now rewrite nanprod_present.
    + replace (apply_builtin name row) with (Some (Ok (nanmedian row)))
        by (simpl in Hn; destruct Hn as [<-|[<-|[]]]; reflexivity).
      now rewrite nanmedian_present.
  - intros row Hr Hp name Hn. simpl in Hn.
    destruct Hn as [<-|[<-|[<-|[<-|[<-|[<-|[<-|[<-|[]]]]]]]]].
    + change (Some (Ok (nanmean row)) = Some (Ok NaN)).
      now rewrite nanmean_all_missing.
    + change (Some (Ok (nanmean row)) = Some (Ok NaN)).
      now rewrite nanmean_all_missing.
    + change (Some (nanmin row) = Some (Ok NaN)).
      now rewrite nanmin_all_missing.
    + change (Some (nanmin row) = Some (Ok NaN)).
      now rewrite nanmin_all_missing.
    + change (Some (nanmax row) = Some (Ok NaN)).
      now rewrite nanmax_all_missing.
    + change (Some (nanmax row) = Some (Ok NaN)).
      now rewrite nanmax_all_missing.
    + change (Some (Ok (nanmedian row)) = Some (Ok NaN)).
      now rewrite nanmedian_all_missing.
    + change (Some (Ok (nanmedian row)) = Some (Ok NaN)).
      now rewrite nanmedian_all_missing.
  - eexists. eexists. split; [reflexivity|]. split; [vm_compute; reflexivity|].
    unfold lookup_column. simpl. f_equal.
    all: apply column_eqb_eq; vm_compute; reflexivity.
Qed.

End IgnorePolicy.

(* ====================================================================== *)
(** ** Instances of the statements                                         *)
(* ====================================================================== *)

Lemma instance_total_avg_built :
  fitted_instance (PList [PStr "sum"; PStr "mean"])
                  (PList [PStr "total"; PStr "avg"]) "raise" true table_A
  = Ok instance_total_avg.
Proof. reflexivity. Qed.

(** Scenarios A, B and D of the documentation. *)
Lemma scenario_A :
  exists self dy,
    fitted_instance (PStr "sum") PNone "raise" false table_A = Ok self /\
    returned_table (transform sqrt_unused agg_unknown self 0 [table_A]) = Some dy /\
    columns dy = [KStr "x1"; KStr "x2"; KStr "sum_x1_x2"] /\
    lookup_column dy (KStr "sum_x1_x2") = Some [dec 5 1; dec 7 1; dec 9 1].
Proof.
  eexists. eexists. split; [reflexivity|]. split; [vm_compute; reflexivity|].
  split; [reflexivity|].
  unfold lookup_column. simpl. f_equal.
  all: apply column_eqb_eq; vm_compute; reflexivity.
Qed.

Lemma scenario_B :
  exists self dy,
    fitted_instance (PStr "prod") PNone "raise" false table_A = Ok self /\
    returned_table (transform sqrt_unused agg_unknown self 0 [table_A]) = Some dy /\
    lookup_column dy (KStr "prod_x1_x2") = Some [dec 4 1; dec 10 1; dec 18 1].
Proof.
  eexists. eexists. split; [reflexivity|]. split; [vm_compute; reflexivity|].
  unfold lookup_column. simpl. f_equal.
  all: apply column_eqb_eq; vm_compute; reflexivity.
Qed.

Lemma scenario_D :
  exists self dy,
    fitted_instance (PList [PStr "sum"; PStr "mean"])
                    (PList [PStr "total"; PStr "avg"]) "raise" false table_A
    = Ok self /\
    returned_table (transform sqrt_unused agg_unknown self 0 [table_A]) = Some dy /\
    lookup_column dy (KStr "total") = Some [dec 5 1; dec 7 1; dec 9 1] /\
    lookup_column dy (KStr "avg") = Some [dec 5 2; dec 7 2; dec 9 2].
Proof.
  eexists. eexists. split; [reflexivity|]. split; [vm_compute; reflexivity|].
  unfold lookup_column. simpl. split; f_equal.
  all: apply column_eqb_eq; vm_compute; reflexivity.
Qed.


(** On a table whose row labels are not the default ones, the results are
    labelled 0..n-1 and the join adds rows instead of columns' values: the
    returned table of scenario A has six rows. *)
Lemma labelled_rows_are_not_aligned :
  exists self dy,
    fitted_instance (PStr "sum") PNone "raise" false table_labelled = Ok self /\
    returned_table (transform sqrt_unused agg_unknown self 0 [table_labelled])
    = Some dy /\
    index dy = [10; 20; 30; 0; 1; 2]%Z /\
    lookup_column dy (KStr "sum_x1_x2")
    = Some [NaN; NaN; NaN; dec 5 1; dec 7 1; dec 9 1].
Proof.
  eexists. eexists. split; [reflexivity|]. split; [vm_compute; reflexivity|].
  split; [reflexivity|].
  unfold lookup_column. simpl. f_equal.
  all: apply column_eqb_eq; vm_compute; reflexivity.
Qed.


(** The mean of the row [1, NA, 3] is the mean of [1, 3]. *)
Lemma ignore_policy_reduces_present_values_witness :
  apply_builtin sqrt_unused "mean" [dec 1 1; NaN; dec 3 1]
  = Some (Ok (np_mean [dec 1 1; dec 3 1])).
Proof.
  destruct (proj1 (ignore_policy_reduces_present_values sqrt_unused agg_unknown)
              [dec 1 1; NaN; dec 3 1]) as [_ [Hmean _]].
  - discriminate.
  - apply Hmean. simpl. auto.
Defined.

(** Two present values are divided by 1; one present value gives NaN. *)
Lemma std_var_sample_semantics_witness :
  apply_builtin sqrt_unused "var" [dec 1 1; NaN; dec 3 1]
  = Some (Ok (fdiv (sum_sq_dev [dec 1 1; dec 3 1]) (of_Z (2 - 1))))
  /\ apply_builtin sqrt_unused "np.std" [NaN; dec 3 1] = Some (Ok NaN).
Proof.
  split.
  - destruct (std_var_sample_semantics sqrt_unused [dec 1 1; NaN; dec 3 1] "var")
      as [Hvar _].
    destruct Hvar as [_ H2]; [simpl; auto|].
    apply H2. simpl. lia.
  - destruct (std_var_sample_semantics sqrt_unused [NaN; dec 3 1] "np.std")
      as [_ Hstd].
    destruct Hstd as [H1 _]; [simpl; auto|].
    apply H1. simpl. lia.
Defined.

(** The row [NA, NA]. *)
Lemma all_missing_sum_prod_witness :
  apply_builtin sqrt_unused "sum" [NaN; NaN] = Some (Ok (Fin 0%Qc))
  /\ apply_builtin sqrt_unused "np.prod" [NaN; NaN] = Some (Ok (Fin 1%Qc)).
Proof.
  destruct (all_missing_sum_prod sqrt_unused [NaN; NaN] "sum" eq_refl) as [Hs _].
  destruct (all_missing_sum_prod sqrt_unused [NaN; NaN] "np.prod" eq_refl)
    as [_ Hp].
  split; [apply Hs | apply Hp]; simpl; auto.
Defined.

(** Scenario D with [drop_original]: [x1] and [x2] go. *)
Lemma drop_original_removes_exactly_inputs_witness :
  exists dy new,
    nth_error (snd (transform sqrt_unused agg_unknown instance_total_avg 0 [table_A])) 2
    = Some dy /\
    (drop_original instance_total_avg = true ->
       (forall k, In k (columns table_A) ->
          (key_in k (columns dy) = false
           <-> key_in k (variables instance_total_avg) = true))
       /\ (forall k, In k (variables instance_total_avg) ->
                     key_in k (columns table_A) = true)
       /\ columns dy
          = filter (fun k => negb (key_in k (variables instance_total_avg)))
                   (columns table_A) ++ new)
    /\ (drop_original instance_total_avg = false ->
        columns dy = columns table_A ++ new).
Proof.
  apply (drop_original_removes_exactly_inputs sqrt_unused agg_unknown
           instance_total_avg [table_A] _ 0 2 table_A).
  - reflexivity.
  - vm_compute. reflexivity.
Defined.

(** Scenario D with [drop_original]: the table handed in still has [x1] and
    [x2]. *)
Lemma transform_leaves_input_unchanged_witness :
  nth_error (snd (transform sqrt_unused agg_unknown instance_total_avg 0 [table_A])) 0
  = Some table_A.
Proof.
  apply (transform_leaves_input_unchanged sqrt_unused agg_unknown
           instance_total_avg [table_A] 0 table_A).
  reflexivity.
Defined.

(** A duplicated column name. *)
Lemma variables_are_validated_witness :
  __init__ (PList [PStr "x1"; PStr "x1"]) (PStr "sum") PNone "raise" false
  = Raise ConfigError.
Proof.
  apply (proj1 variables_are_validated).
  intros [l [E [_ [_ N]]]]. injection E as <-.
  inversion N as [|? ? Hin _]. apply Hin. simpl. auto.
Defined.

(* ====================================================================== *)
(** ** More on the constructor                                             *)
(* ====================================================================== *)

Lemma all_as_Forall2 {A} (f : PyVal -> option A) (l : list PyVal) (r : list A) :
  all_as f l = Some r <-> Forall2 (fun v a => f v = Some a) l r.
Proof.
  split.
  - revert r. induction l as [|v t IH]; simpl; intros r H.
    + injection H as <-. constructor.
    + destruct (f v) as [a|] eqn:E; [|discriminate].
      destruct (all_as f t) as [r'|]; [|discriminate].
      injection H as <-. constructor; auto.
  - induction 1 as [|v a l' r' H1 _ IH]; simpl; trivial.
    now rewrite H1, IH.
Qed.

Lemma distinct_keys_py_set (ks : list key) :
  distinct_keys ks <-> length (py_set key_eqb ks) = length ks.
Proof.
  induction ks as [|k t IH].
  - simpl. tauto.
  - split.
    + intros [Hk Ht]. simpl. unfold key_in in Hk. rewrite Hk. simpl.
      f_equal. now apply IH.
    + intros H. apply py_set_full in H. destruct H as [Hk Ht].
      split; [exact Hk | now apply IH].
Qed.

Lemma NoDup_py_set (l : list string) :
  NoDup l -> length (py_set String.eqb l) = length l.
Proof.
  induction 1 as [|x t Hx _ IH]; simpl; trivial.
  destruct (existsb (String.eqb x) t) eqn:E.
  - apply existsb_exists in E. destruct E as [y [Hy E]].
    apply String.eqb_eq in E. subst. contradiction.
  - simpl. now rewrite IH.
Qed.

Lemma all_as_str_map (ss : list string) : all_as as_str (map PStr ss) = Some ss.
Proof.
  induction ss as [|s t IH]; simpl; trivial. now rewrite IH.
Qed.

(** The check of [variables], as the vocabulary of the statements has it. *)
Lemma variables_check (vars : list PyVal) (ks : list key) :
  keys_of vars ks ->
  all_as as_key vars = Some ks /\
  ((length ks <? 2) || negb (length (py_set key_eqb ks) =? length ks) = false
   <-> 2 <= length ks /\ distinct_keys ks).
Proof.
  intros K. split; [now apply all_as_Forall2|].
  rewrite distinct_keys_py_set. split.
  - intros C. apply orb_false_elim in C. destruct C as [C1 C2].
    apply Nat.ltb_ge in C1. apply negb_false_iff, Nat.eqb_eq in C2. auto.
  - intros [C1 C2]. apply Nat.ltb_ge in C1. apply Nat.eqb_eq in C2.
    now rewrite C1, C2.
Qed.

(** X3.  A mapping as [func] is refused with UnsupportedSpecError (a
    [NotImplementedError]) once [variables] has passed its check, whatever
    the names and the flags are. *)
Theorem mapping_func_is_refused (vars : list PyVal) (ks : list key)
    (items : list (PyVal * PyVal)) (names : PyVal) (mv : string) (dr : bool) :
  keys_of vars ks ->
  2 <= length ks ->
  distinct_keys ks ->
  __init__ (PList vars) (PDict items) names mv dr = Raise UnsupportedSpecError.
Proof.
  intros K L D.
  destruct (variables_check vars ks K) as [E C].
  unfold __init__. rewrite E.
  now rewrite (proj2 C (conj L D)).
Qed.

(** X4.  Entries of [variables] that are equal in Python's sense, such as [1]
    and [True], are duplicates: construction raises ConfigError. *)
Theorem equal_entries_are_duplicates (vars : list PyVal) (ks : list key)
    (func names : PyVal) (mv : string) (dr : bool) :
  keys_of vars ks ->
  ~ distinct_keys ks ->
  __init__ (PList vars) func names mv dr = Raise ConfigError.
Proof.
  intros K D.
  destruct (variables_check vars ks K) as [E C].
  unfold __init__. rewrite E.
  destruct ((length ks <? 2)
            || negb (length (py_set key_eqb ks) =? length ks)) eqn:B;
    [reflexivity|].
  elim D. now apply C.
Qed.

(** X1.  Arguments that meet every check are accepted, and the instance holds
    them: at least two distinct column identifiers, a [func] that is not a
    mapping, no names or as many unique names as the list [func] was cast to
    has entries, and one of the two missing-value policies. *)
Theorem valid_arguments_are_accepted (vars : list PyVal) (ks : list key)
    (func names : PyVal) (stored : option (list string)) (mv : string)
    (dr : bool) :
  keys_of vars ks ->
  2 <= length ks ->
  distinct_keys ks ->
  (forall items, func <> PDict items) ->
  names_given names stored ->
  (forall ss, stored = Some ss ->
     NoDup ss /\
     forall fs, normalise func = PList fs -> length ss = length fs) ->
  mv = "raise" \/ mv = "ignore" ->
  __init__ (PList vars) func names mv dr
  = Ok {| variables := ks;
          func := normalise func;
          new_variables_names := stored;
          missing_values := mv;
          drop_original := dr;
          fitted := None |}.
Proof.
  intros K L D Hd Hn Hs Hmv.
  destruct (variables_check vars ks K) as [E C].
  unfold __init__. rewrite E, (proj2 C (conj L D)).
  assert (B : BaseCreation_init mv dr = Ok tt)
    by (destruct Hmv as [-> | ->]; reflexivity).
  assert (N : (match func with
               | PStr _ => PList [func] | PList _ => func | _ => func
               end) = normalise func) by (now destruct func).
  rewrite N, B.
  destruct stored as [ss|]; simpl in Hn; subst names.
  - destruct (Hs ss eq_refl) as [Hnd Hlen].
    rewrite all_as_str_map, (NoDup_py_set ss Hnd), Nat.eqb_refl. simpl.
    destruct (normalise func) as [| | | |fs| |items|] eqn:F; simpl; trivial.
    + now rewrite (Hlen fs eq_refl), Nat.eqb_refl.
    + destruct func; simpl in F; try discriminate. now elim (Hd items).
  - destruct (normalise func) as [| | | | | |items|] eqn:F; simpl; trivial.
    destruct func; simpl in F; try discriminate. now elim (Hd items).
Qed.

(** X2.  What a successful construction leaves on the instance: the given
    column identifiers, at least two and distinct; [func] cast to a list
    when it was a string and as it was otherwise, never a mapping; the given
    names, unique and as many as a list [func] has entries; the given flags;
    and no fitted state. *)
Theorem construction_stores_arguments (vars_arg func_arg names_arg : PyVal)
    (mv : string) (dr : bool) (self : MathFeatures) :
  __init__ vars_arg func_arg names_arg mv dr = Ok self ->
  (exists vars, vars_arg = PList vars /\ keys_of vars (variables self)) /\
  2 <= length (variables self) /\
  distinct_keys (variables self) /\
  func self = normalise func_arg /\
  (forall items, func_arg <> PDict items) /\
  names_given names_arg (new_variables_names self) /\
  (forall ss, new_variables_names self = Some ss ->
     NoDup ss /\ forall fs, func self = PList fs -> length ss = length fs) /\
  missing_values self = mv /\ drop_original self = dr /\ fitted self = None.
Proof.
  unfold __init__. intros H.
  assert (N : (match func_arg with
               | PStr _ => PList [func_arg] | PList _ => func_arg | _ => func_arg
               end) = normalise func_arg) by (now destruct func_arg).
  rewrite N in H.
  destruct vars_arg as [| | | |vars| | |]; try discriminate.
  destruct (all_as as_key vars) as [ks|] eqn:E; [|discriminate].
  destruct ((length ks <? 2)
            || negb (length (py_set key_eqb ks) =? length ks)) eqn:C;
    [discriminate|].
  apply all_as_Forall2 in E.
  apply (proj1 (proj2 (variables_check vars ks E))) in C. destruct C as [L D].
  assert (Hd : forall items, func_arg <> PDict items).
  { intros items ->. simpl in H. discriminate. }
  assert (exists names,
            (match names_arg with
             | PNone => Ok None
             | PList ns =>
                 match all_as as_str ns with
                 | Some ss =>
                     if negb (length (py_set String.eqb ss) =? length ss)
                     then Raise ValueError else Ok (Some ss)
                 | None => Raise ValueError
                 end
             | _ => Raise ValueError
             end) = Ok names
            /\ names_given names_arg names
            /\ (forall ss, names = Some ss -> NoDup ss)) as [names [En [Hg Hu]]].
  { destruct (normalise func_arg); try (now elim (Hd items));
      destruct names_arg as [| | | |ns| | |]; try discriminate;
      try (exists None; repeat split; discriminate);
      (destruct (all_as as_str ns) as [ss|] eqn:S; [|discriminate]);
      (destruct (negb (length (py_set String.eqb ss) =? length ss)) eqn:U;
       [discriminate|]);
      exists (Some ss); repeat split;
      try (simpl; f_equal; now apply all_as_str_spec);
      intros ss' Hss; injection Hss as <-;
      apply negb_false_iff, Nat.eqb_eq in U;
      apply (py_set_NoDup String.eqb); trivial; apply String.eqb_refl. }
  rewrite En in H.
  destruct (normalise func_arg) as [| | | |fs| |items|] eqn:F;
    try (destruct func_arg; simpl in F; try discriminate; now elim (Hd items));
    simpl in H.
  all: destruct names as [ss|]; simpl in H.
  all: try (destruct (negb (length ss =? length fs)) eqn:Len;
            [discriminate|]; simpl in H).
  all: destruct (BaseCreation_init mv dr) as [[]|]; [|discriminate].
  all: simpl in H; injection H as <-; simpl.
  all: repeat split; trivial; try (now exists vars).
  all: try (now apply Hu).
  all: intros fs' Hfs; try discriminate.
  all: injection Hfs as <-.
  all: try match goal with
           | H0 : Some _ = Some _ |- _ => injection H0 as <-
           end.
  all: now apply negb_false_iff, Nat.eqb_eq in Len.
Qed.

(* ====================================================================== *)
(** ** More on the derived names                                           *)
(* ====================================================================== *)

Lemma length_append (a b : string) :
  String.length (a ++ b) = String.length a + String.length b.
Proof.
  induction a as [|c a IH]; simpl; trivial. now rewrite IH.
Qed.

Lemma append_cancel_r (a b s : string) : (a ++ s = b ++ s)%string -> a = b.
Proof.
  revert b. induction a as [|c a IH]; intros [|c' b] H; simpl in H; trivial.
  - apply (f_equal String.length) in H. simpl in H.
    rewrite length_append in H. lia.
  - apply (f_equal String.length) in H. simpl in H.
    rewrite length_append in H. lia.
  - injection H as -> H. f_equal. now apply IH.
Qed.

Lemma join_length_ge (sep s : string) (parts : list string) :
  In s parts -> String.length s <= String.length (join sep parts).
Proof.
  induction parts as [|p t IH]; [intros []|].
  intros [->|Hin].
  - destruct t; simpl; trivial. rewrite length_append. lia.
  - destruct t as [|q t']; [destruct Hin|].
    change (join sep (p :: q :: t'))
      with (p ++ sep ++ join sep (q :: t'))%string.
    rewrite !length_append. specialize (IH Hin). lia.
Qed.

Lemma NoDup_map_injective {A B} (g : A -> B) (l : list A) :
  (forall a b, g a = g b -> a = b) -> (NoDup (map g l) <-> NoDup l).
Proof.
  intros Hinj. split; [apply NoDup_map_inv|].
  induction 1 as [|x t Hx _ IH]; simpl; constructor; trivial.
  intros Hin. apply in_map_iff in Hin. destruct Hin as [y [E Hy]].
  apply Hinj in E. now subst.
Qed.

(** What [_get_new_features_name] returns when it derives the names. *)
Lemma derived_names_shape (self : MathFeatures) (st : FittedState)
    (names : list string) :
  new_variables_names self = None ->
  fitted self = Some st ->
  _get_new_features_name self = Ok names ->
  exists fs idents,
    func self = PList fs /\
    Forall2 (fun f ident => identity f = Some ident) fs idents /\
    names = map (fun ident => derived_name ident (variables_ st)) idents.
Proof.
  unfold _get_new_features_name. intros -> ->. simpl.
  destruct (func self) as [| | | |fs| | |]; try discriminate.
  destruct (mapM _ fs) as [functions|] eqn:E; [|discriminate].
  simpl. intros H. injection H as <-.
  exists fs, functions. repeat split; trivial.
  apply mapM_ok_Forall2 in E.
  induction E as [|f ident l l' H1 _ IH]; constructor; trivial.
  destruct f; simpl; try discriminate.
  - now injection H1 as <-.
  - destruct (__name__ c); [now injection H1 as <-|discriminate].
Qed.

(** X7.  A derived name never is the label of an input column: it is longer than
    the name of each of them. *)
Theorem derived_names_differ_from_inputs (self : MathFeatures)
    (st : FittedState) (names : list string) :
  new_variables_names self = None ->
  fitted self = Some st ->
  _get_new_features_name self = Ok names ->
  forall name k,
    In name names -> In k (variables_ st) -> key_eqb (KStr name) k = false.
Proof.
  intros Hn Hs Hg name k Hname Hk.
  destruct (derived_names_shape self st names Hn Hs Hg)
    as [fs [idents [_ [_ ->]]]].
  apply in_map_iff in Hname. destruct Hname as [ident [<- _]].
  destruct k as [s|z|b]; simpl; trivial.
  apply String.eqb_neq. intros E.
  apply (f_equal String.length) in E. unfold derived_name in E.
  rewrite !length_append in E. simpl in E.
  assert (In s (map format_key (variables_ st))) as Hin
      by (apply in_map_iff; exists (KStr s); auto).
  apply (join_length_ge "_") in Hin. lia.
Qed.

(** X8.  The derived names are pairwise different exactly when the identities of
    the specifications are: two equal built-in names, or two callables of
    the same [__name__], derive the same column name. *)
Theorem derived_names_distinct_iff (self : MathFeatures) (st : FittedState)
    (names : list string) :
  new_variables_names self = None ->
  fitted self = Some st ->
  _get_new_features_name self = Ok names ->
  exists fs idents,
    func self = PList fs /\
    Forall2 (fun f ident => identity f = Some ident) fs idents /\
    length names = length fs /\
    (NoDup names <-> NoDup idents).
Proof.
  intros Hn Hs Hg.
  destruct (derived_names_shape self st names Hn Hs Hg)
    as [fs [idents [Hf [Hid ->]]]].
  exists fs, idents. repeat split; trivial.
  - rewrite length_map. symmetry. exact (Forall2_length Hid).
  - apply NoDup_map_injective. intros a b E. now apply append_cancel_r in E.
  - apply NoDup_map_injective. intros a b E. now apply append_cancel_r in E.
Qed.

(* ====================================================================== *)
(** ** More on the selection of the reductions                             *)
(* ====================================================================== *)

Section Selection.

Variable sqrt_Qc : Qc -> Qc.

(** X9.  The built-in reductions are selected by exact comparison with sixteen
    strings, the eight names and their aliases: no other string and no
    callable selects one, and an alias selects what its name selects. *)
Theorem builtin_names_are_exact :
  (forall np_function,
      builtin sqrt_Qc np_function <> None <->
      exists s, np_function = PStr s /\ In s (builtin_names ++ builtin_aliases))
  /\ (forall name, In name builtin_names ->
        builtin sqrt_Qc (PStr ("np." ++ name)) = builtin sqrt_Qc (PStr name)).
Proof.
  split.
  - intros f. split.
    + intros H. destruct f as [| | |s| | | |]; try (now elim H).
      exists s. split; trivial.
      revert H. unfold builtin, py_in. simpl.
      repeat match goal with
             | |- context [String.eqb s ?c] =>
                 let E := fresh "E" in
                 destruct (String.eqb s c) eqn:E;
                 [apply String.eqb_eq in E; subst s; intros _;
                  repeat (try (left; reflexivity); right) | simpl]
             end.
      intros H. now elim H.
    + intros [s [-> Hin]]. simpl in Hin.
      repeat (destruct Hin as [<-|Hin]; [discriminate|]). contradiction.
  - intros name Hin. simpl in Hin.
    repeat (destruct Hin as [<-|Hin]; [reflexivity|]). contradiction.
Qed.

End Selection.

(* ====================================================================== *)
(** ** More on [transform]                                                 *)
(* ====================================================================== *)

Lemma concat_empty (d : DataFrame) : concat_axis1 d pd_DataFrame = Ok d.
Proof.
  destruct d as [idx cols]. unfold concat_axis1. simpl.
  rewrite union_index_empty. unfold reindex_frame. simpl.
  pose proof (reindex_frame_same {| index := idx; data := cols |} cols) as E.
  simpl in E. rewrite E. simpl. now rewrite app_nil_r.
Qed.

Section MoreTransform.

Variable sqrt_Qc : Qc -> Qc.
Variable agg_by_name : string -> option (list fl -> fl).

Local Abbreviation passed_over := (passed_over sqrt_Qc).
Local Abbreviation np_step := (np_step sqrt_Qc agg_by_name).
Local Abbreviation np_steps := (np_steps sqrt_Qc agg_by_name).
Local Abbreviation transform := (transform sqrt_Qc agg_by_name).
Local Abbreviation transform_table := (transform_table sqrt_Qc agg_by_name).

Lemma np_step_passed_over (d : DataFrame) (names : list string)
    (vars : list key) (i : nat) (f : PyVal) (R : DataFrame) :
  passed_over f -> np_step d names vars (i, f) R = Ok R.
Proof.
  intros [Hb [Hn Hp]]. unfold np_step. rewrite Hb.
  apply String.eqb_neq in Hn. apply String.eqb_neq in Hp.
  cbv zeta. now rewrite Hn, Hp.
Qed.

Lemma np_steps_passed_over (d : DataFrame) (names : list string)
    (vars : list key) (fs : list PyVal) :
  Forall passed_over fs ->
  forall i R, np_steps d names vars (combine (seq i (length fs)) fs) R = Ok R.
Proof.
  induction 1 as [|f t Hf _ IH]; intros i R; [reflexivity|].
  change (combine (seq i (length (f :: t))) (f :: t))
    with ((i, f) :: combine (seq (S i) (length t)) t).
  rewrite np_steps_cons, (np_step_passed_over d names vars i f R Hf).
  apply IH.
Qed.

(** X11.  Specifications that are passed over, and an empty list of
    specifications, add nothing: the returned table is a new table equal to
    the input table, minus the input columns with [drop_original],
    whatever its row labels are. *)
Theorem passed_over_specifications_add_nothing (self : MathFeatures)
    (h h' : heap) (X Y : ref) (d : DataFrame) (fs : list PyVal) :
  nth_error h X = Some d ->
  transform self X h = (Ok Y, h') ->
  py_iter (func self) = Ok fs ->
  Forall passed_over fs ->
  exists dy,
    nth_error h' Y = Some dy /\
    (if drop_original self then drop d (variables self) else Ok d) = Ok dy.
Proof.
  intros HX HT Hfs Hp.
  destruct (transform_returns sqrt_Qc agg_by_name self h h' X Y d HX HT) as [dy [Htab Hdy]].
  exists dy. split; trivial.
  unfold transform_table in Htab.
  destruct (check_table self d) as [[]|]; [|discriminate]. simpl in Htab.
  destruct (_get_new_features_name self) as [names|]; [|discriminate].
  simpl in Htab. rewrite Hfs in Htab. simpl in Htab.
  unfold enumerate in Htab.
  rewrite (np_steps_passed_over d names (variables self) fs Hp) in Htab.
  simpl in Htab. rewrite concat_empty in Htab. exact Htab.
Qed.

(** X14.  The table that [transform] returns is a new one: its reference is not
    the caller's and was not in use before the call, and every table that
    existed before the call is as it was. *)
Theorem transform_returns_a_new_table (self : MathFeatures) (h h' : heap)
    (X Y : ref) (d : DataFrame) :
  nth_error h X = Some d ->
  transform self X h = (Ok Y, h') ->
  Y <> X /\ nth_error h Y = None /\ firstn (length h) h' = h.
Proof.
  intros HX HT.
  destruct (transform_run sqrt_Qc agg_by_name self h X d HX) as [ext [Hrun _]].
  rewrite HT in Hrun.
  destruct (transform_table self d); simpl in Hrun; [|discriminate].
  injection Hrun as -> ->.
  assert (X < length h) by (apply nth_error_Some; congruence).
  repeat split.
  - lia.
  - apply nth_error_None. lia.
  - rewrite firstn_app, Nat.sub_diag, firstn_all. simpl. apply app_nil_r.
Qed.

(** X15.  Calling [transform] a second time on the same table returns a second
    new table, equal to the first, and leaves the first as it was. *)
Theorem transform_is_repeatable (self : MathFeatures) (h h1 h2 : heap)
    (X Y1 Y2 : ref) (d : DataFrame) :
  nth_error h X = Some d ->
  transform self X h = (Ok Y1, h1) ->
  transform self X h1 = (Ok Y2, h2) ->
  Y1 <> Y2 /\
  exists dy, nth_error h2 Y1 = Some dy /\ nth_error h2 Y2 = Some dy.
Proof.
  intros HX HT1 HT2.
  destruct (transform_returns sqrt_Qc agg_by_name self h h1 X Y1 d HX HT1) as [dy [Htab Hdy]].
  destruct (transform_run sqrt_Qc agg_by_name self h X d HX) as [ext1 [Hrun1 _]].
  rewrite HT1, Htab in Hrun1. simpl in Hrun1. injection Hrun1 as -> ->.
  assert (HX1 : nth_error (h ++ ext1) X = Some d) by (now apply nth_error_app_old).
  destruct (transform_returns sqrt_Qc agg_by_name self _ h2 X Y2 d HX1 HT2) as [dy2 [Htab2 Hdy2]].
  destruct (transform_run sqrt_Qc agg_by_name self _ X d HX1) as [ext2 [Hrun2 _]].
  rewrite HT2, Htab2 in Hrun2. simpl in Hrun2. injection Hrun2 as -> ->.
  assert (dy2 = dy) as -> by congruence.
  split.
  - rewrite length_app.
    assert (S (length h) < length (h ++ ext1))
      by (apply nth_error_Some; congruence).
    rewrite length_app in *. lia.
  - exists dy. split; trivial. now apply nth_error_app_old.
Qed.

End MoreTransform.

(* ====================================================================== *)
(** ** The values of the new columns                                       *)
(* ====================================================================== *)

Lemma getitem_present (d : DataFrame) (vars : list key) :
  (forall k, In k vars -> key_in k (columns d) = true) ->
  exists sub, getitem d vars = Ok sub.
Proof.
  intros H. unfold getitem.
  assert (exists cols,
             mapM (fun k =>
                     match filter (fun c : key * list fl => key_eqb (fst c) k)
                                  (data d) with
                     | [] => Raise KeyError
                     | cs => Ok cs
                     end) vars = Ok cols) as [cols ->].
  { induction vars as [|k t IH]; [now exists []|].
    destruct IH as [cols E]; [intros; apply H; simpl; auto|].
    simpl. rewrite E.
    assert (key_in k (columns d) = true) as K by (apply H; simpl; auto).
    apply existsb_exists in K. destruct K as [l [Hl El]].
    apply in_map_iff in Hl. destruct Hl as [c [<- Hc]].
    destruct (filter (fun c0 : key * list fl => key_eqb (fst c0) k) (data d))
      as [|c0 cs] eqn:F.
    - assert (In c (filter (fun c0 : key * list fl => key_eqb (fst c0) k)
                          (data d))) as Hin.
      { apply filter_In. split; trivial. now rewrite key_eqb_sym. }
      rewrite F in Hin. destruct Hin.
    - simpl. eexists. reflexivity. }
  simpl. eexists. reflexivity.
Qed.

Lemma skipn_nth_error_cons {A} (l : list A) (i : nat) (a : A) :
  nth_error l i = Some a -> skipn i l = a :: skipn (S i) l.
Proof.
  revert i. induction l as [|x t IH]; intros [|i] H; simpl in *;
    try discriminate.
  - now injection H as ->.
  - now apply IH.
Qed.

Lemma filter_known_labels (all l : list Z) :
  (forall x, In x l -> existsb (Z.eqb x) all = true) ->
  filter (fun x => negb (existsb (Z.eqb x) all)) l = [].
Proof.
  induction l as [|x t IH]; intros H; simpl; trivial.
  rewrite (H x) by (simpl; auto). simpl.
  apply IH. intros y Hy. apply H. simpl. auto.
Qed.

Lemma union_index_filter (ia ib : list Z) :
  union_index ia ib
  = ia ++ filter (fun l => negb (existsb (Z.eqb l) ia)) ib.
Proof.
  unfold union_index. unfold index_eqb.
  destruct (list_eq_dec Z.eq_dec ia ib) as [<-|]; trivial.
  rewrite filter_known_labels; [now rewrite app_nil_r|].
  intros l Hl. apply existsb_exists. exists l. split; trivial.
  apply Z.eqb_refl.
Qed.

Section NewColumns.

Variable sqrt_Qc : Qc -> Qc.
Variable agg_by_name : string -> option (list fl -> fl).

Local Abbreviation builtin := (builtin sqrt_Qc).
Local Abbreviation resolvable := (resolvable sqrt_Qc).
Local Abbreviation spec_column := (spec_column sqrt_Qc agg_by_name).
Local Abbreviation np_step := (np_step sqrt_Qc agg_by_name).
Local Abbreviation np_steps := (np_steps sqrt_Qc agg_by_name).
Local Abbreviation transform := (transform sqrt_Qc agg_by_name).
Local Abbreviation transform_table := (transform_table sqrt_Qc agg_by_name).

(** On a table with the default labels, one turn of the loop appends the
    column of its specification under the name at its position. *)
Lemma np_step_appends (d sub : DataFrame) (names : list string)
    (vars : list key) (i : nat) (f : PyVal) (R R' : DataFrame) (n : nat) :
  index d = RangeIndex n ->
  NoDup names ->
  getitem d vars = Ok sub ->
  resolvable f ->
  results_inv n names i R ->
  np_step d names vars (i, f) R = Ok R' ->
  exists name result,
    nth_error names i = Some name /\
    spec_column f (values sub) = Ok result /\
    R' = {| index := RangeIndex n;
            data := data R ++ [(KStr name, result)] |}.
Proof.
  intros Hd Hnd G Hres [Hc [_ [_ Hidx]]] H.
  assert (Ln : length (values sub) = n).
  { rewrite values_length. unfold nrows.
    now rewrite (getitem_index d sub vars G), Hd, RangeIndex_length. }
  assert (exists name result,
             nth_error names i = Some name /\
             spec_column f (values sub) = Ok result /\
             length result = n /\
             setitem R (KStr name)
                     {| s_index := RangeIndex n; s_values := result |} = Ok R')
    as [name [result [Hn [Hcol [Hl Hset]]]]].
  { assert (Hname : forall name, list_getitem names i = Ok name ->
                      nth_error names i = Some name).
    { unfold list_getitem. intros name.
      destruct (nth_error names i); [|discriminate]. congruence. }
    unfold np_step in H. unfold spec_column.
    destruct (builtin f) as [reduction|] eqn:B.
    - rewrite G in H. simpl in H.
      destruct (mapM reduction (values sub)) as [result|] eqn:Mr;
        [|discriminate]. simpl in H.
      destruct (list_getitem names i) as [name|] eqn:Nm; [|discriminate].
      simpl in H. exists name, result.
      apply mapM_length in Mr.
      assert (length result = n) as L by congruence.
      unfold pd_Series in H. rewrite L in H. auto.
    - cbv zeta in H.
      destruct Hres as [Hb|[Hs|Hs]]; [contradiction| |];
        rewrite Hs in *; simpl in H; rewrite G in H; simpl in H; simpl.
      + destruct (apply_over_axes f (values sub)) as [result|] eqn:Mr;
          [|discriminate]. simpl in H.
        destruct (list_getitem names i) as [name|] eqn:Nm; [|discriminate].
        simpl in H. exists name, result.
        apply apply_over_axes_length in Mr.
        assert (length result = n) as L by congruence.
        unfold pd_Series in H. rewrite L in H. auto.
      + destruct (agg agg_by_name f (values sub)) as [result|] eqn:Mr;
          [|discriminate]. simpl in H.
        destruct (list_getitem names i) as [name|] eqn:Nm; [|discriminate].
        simpl in H. exists name, result.
        apply agg_length in Mr.
        assert (length result = n) as L by congruence.
        rewrite (getitem_index d sub vars G), Hd in H. auto. }
  exists name, result. repeat split; trivial.
  rewrite (setitem_aligned R (KStr name) n result Hidx Hl) in Hset.
  injection Hset as <-. f_equal.
  apply set_column_fresh.
  destruct (key_in (KStr name) (map fst (data R))) eqn:K; trivial.
  fold (columns R) in K. rewrite Hc in K. apply key_in_KStr in K.
  now elim (NoDup_nth_not_in_firstn names i name Hnd Hn).
Qed.

Lemma np_steps_columns (d sub : DataFrame) (names : list string)
    (vars : list key) (n : nat) :
  index d = RangeIndex n ->
  NoDup names ->
  getitem d vars = Ok sub ->
  forall fs i R R',
    Forall resolvable fs ->
    results_inv n names i R ->
    np_steps d names vars (combine (seq i (length fs)) fs) R = Ok R' ->
    exists cols,
      mapM (fun f => spec_column f (values sub)) fs = Ok cols /\
      data R'
      = data R ++ combine (map KStr (firstn (length fs) (skipn i names))) cols.
Proof.
  intros Hd Hnd G fs. induction fs as [|f t IH]; intros i R R' Hres Hinv H.
  - simpl in H. injection H as <-. exists []. simpl.
    split; trivial. now rewrite app_nil_r.
  - change (combine (seq i (length (f :: t))) (f :: t))
      with ((i, f) :: combine (seq (S i) (length t)) t) in H.
    rewrite (np_steps_cons sqrt_Qc agg_by_name) in H.
    destruct (np_step d names vars (i, f) R) as [R1|] eqn:S1;
      [|discriminate].
    simpl in H. inversion Hres as [|? ? Hf Ht]; subst.
    destruct (np_step_appends d sub names vars i f R R1 n Hd Hnd G Hf Hinv S1)
      as [name [result [Hn [Hcol HR1]]]].
    assert (results_inv n names (S i) R1) as Hinv1.
    { replace (S i) with (i + length [f]) by (simpl; lia).
      apply (np_steps_aligned sqrt_Qc agg_by_name d names vars n Hd Hnd
               [f] i R R1); auto.
      change (np_steps d names vars [(i, f)] R = Ok R1).
      rewrite (np_steps_cons sqrt_Qc agg_by_name), S1. reflexivity. }
    destruct (IH (S i) R1 R' Ht Hinv1 H) as [cols [Hcols Hdata]].
    exists (result :: cols). split.
    + simpl. now rewrite Hcol, Hcols.
    + rewrite Hdata, HR1. cbn [data].
      rewrite (skipn_nth_error_cons names i name Hn).
      cbn [length firstn map combine]. now rewrite <- app_assoc.
Qed.

(** X10.  With the default row labels and pairwise different names, the new
    columns are the row-wise reductions: the column of each specification
    is what its reduction (or its callable) yields on the rows of the input
    columns, under the name at the position of the specification. *)
Theorem new_columns_are_rowwise_reductions (self : MathFeatures) (h h' : heap)
    (X Y : ref) (d : DataFrame) (names : list string) (fs : list PyVal) :
  nth_error h X = Some d ->
  transform self X h = (Ok Y, h') ->
  index d = RangeIndex (nrows d) ->
  _get_new_features_name self = Ok names ->
  py_iter (func self) = Ok fs ->
  NoDup names ->
  Forall resolvable fs ->
  (drop_original self = true ->
   forall name, In name names -> key_in (KStr name) (variables self) = false) ->
  exists dy sub cols,
    nth_error h' Y = Some dy /\
    getitem d (variables self) = Ok sub /\
    mapM (fun f => spec_column f (values sub)) fs = Ok cols /\
    index dy = index d /\
    data dy
    = (if drop_original self
       then filter (fun c : key * list fl =>
                      negb (key_in (fst c) (variables self))) (data d)
       else data d)
      ++ combine (map KStr (firstn (length fs) names)) cols.
Proof.
  intros HX HT Hd Hnames Hfs Hnd Hres Hdrop.
  destruct (transform_returns sqrt_Qc agg_by_name self h h' X Y d HX HT)
    as [dy [Htab Hdy]].
  unfold transform_table in Htab.
  destruct (check_table self d) as [[]|] eqn:C; [|discriminate].
  destruct (getitem_present d (variables self)
              (check_table_variables self d C)) as [sub G].
  rewrite Hnames, Hfs in Htab. simpl in Htab.
  destruct (np_steps d names (variables self) (enumerate fs) pd_DataFrame)
    as [R|] eqn:HR; [|discriminate].
  simpl in Htab.
  assert (results_inv (nrows d) names 0 pd_DataFrame) as Inv0.
  { unfold results_inv. simpl. repeat split; auto. lia. }
  pose proof (np_steps_aligned sqrt_Qc agg_by_name d names (variables self)
                (nrows d) Hd Hnd fs 0 pd_DataFrame R Hres Inv0 HR) as Inv.
  destruct (np_steps_columns d sub names (variables self) (nrows d) Hd Hnd G
              fs 0 pd_DataFrame R Hres Inv0 HR) as [cols [Hcols Hdata]].
  simpl in Inv, Hdata.
  rewrite (concat_aligned d R (nrows d) (length fs) names Hd Inv) in Htab.
  simpl in Htab.
  exists dy, sub, cols. repeat split; trivial.
  - destruct (drop_original self).
    + unfold drop in Htab.
      destruct (forallb _ (variables self)); [|discriminate].
      now injection Htab as <-.
    + now injection Htab as <-.
  - destruct (drop_original self).
    + unfold drop in Htab.
      destruct (forallb _ (variables self)); [|discriminate].
      injection Htab as <-. simpl.
      rewrite filter_app, Hdata. f_equal. apply filter_all.
      apply forallb_forall. intros c Hcin.
      destruct c as [k v]. apply in_combine_l in Hcin.
      apply in_map_iff in Hcin. destruct Hcin as [name [<- Hin]]. simpl.
      rewrite (Hdrop eq_refl name); trivial.
      now apply (In_firstn names (length fs)).
    + injection Htab as <-. simpl. now rewrite Hdata.
Qed.

(** X12.  With built-in specifications only, and at least one, the results are
    labelled 0..n-1 whatever the row labels of the table are, and the join
    is on labels: the returned table keeps the row labels of the input table
    and adds a row for every label among 0..n-1 that the input table does
    not have. *)
Theorem builtin_results_are_labelled_by_position (self : MathFeatures)
    (h h' : heap) (X Y : ref) (d : DataFrame) (fs : list PyVal) :
  nth_error h X = Some d ->
  transform self X h = (Ok Y, h') ->
  py_iter (func self) = Ok fs ->
  fs <> [] ->
  Forall (fun f => builtin f <> None) fs ->
  exists dy,
    nth_error h' Y = Some dy /\
    index dy
    = index d ++ filter (fun l => negb (existsb (Z.eqb l) (index d)))
                        (RangeIndex (nrows d)).
Proof.
  intros HX HT Hfs Hne Hb.
  destruct (transform_returns sqrt_Qc agg_by_name self h h' X Y d HX HT)
    as [dy [Htab Hdy]].
  exists dy. split; trivial.
  unfold transform_table in Htab.
  destruct (check_table self d) as [[]|]; [|discriminate]. simpl in Htab.
  destruct (_get_new_features_name self) as [names|]; [|discriminate].
  rewrite Hfs in Htab. simpl in Htab.
  destruct (np_steps d names (variables self) (enumerate fs) pd_DataFrame)
    as [R|] eqn:HR; [|discriminate].
  simpl in Htab.
  assert (index R = RangeIndex (nrows d)) as HiR.
  { assert (forall t i R0 R1,
               Forall (fun f => builtin f <> None) t ->
               index R0 = RangeIndex (nrows d)
               \/ (index R0 = [] /\ data R0 = []) ->
               np_steps d names (variables self)
                        (combine (seq i (length t)) t) R0 = Ok R1 ->
               (index R1 = RangeIndex (nrows d)
                \/ (index R1 = [] /\ data R1 = []))
               /\ (t <> [] -> index R1 = RangeIndex (nrows d))) as Hloop.
    { induction t as [|f t IH]; intros i R0 R1 Ht HJ Hs.
      - simpl in Hs. injection Hs as <-. split; trivial. now intros [].
      - change (combine (seq i (length (f :: t))) (f :: t))
          with ((i, f) :: combine (seq (S i) (length t)) t) in Hs.
        rewrite (np_steps_cons sqrt_Qc agg_by_name) in Hs.
        destruct (np_step d names (variables self) (i, f) R0) as [R2|] eqn:S1;
          [|discriminate].
        simpl in Hs. inversion Ht as [|? ? Hf Ht']; subst.
        assert (index R2 = RangeIndex (nrows d)) as H2.
        { unfold np_step in S1.
          destruct (builtin f) as [reduction|]; [|now elim Hf].
          destruct (getitem d (variables self)) as [sub|] eqn:G;
            [|discriminate]. simpl in S1.
          destruct (mapM reduction (values sub)) as [result|] eqn:Mr;
            [|discriminate]. simpl in S1.
          destruct (list_getitem names i) as [name|]; [|discriminate].
          simpl in S1. apply mapM_length in Mr.
          rewrite values_length in Mr. unfold nrows in Mr at 1.
          rewrite (getitem_index d sub _ G) in Mr. fold (nrows d) in Mr.
          unfold pd_Series in S1. rewrite Mr in S1.
          rewrite (setitem_aligned R0 (KStr name) (nrows d) result HJ Mr) in S1.
          now injection S1 as <-. }
        destruct (IH (S i) R2 R1 Ht' (or_introl H2) Hs) as [HJ1 Hne1].
        split; trivial. intros _.
        destruct t as [|g t']; [|apply Hne1; discriminate].
        simpl in Hs. injection Hs as <-. exact H2. }
    apply (Hloop fs 0 pd_DataFrame R Hb); auto. }
  destruct (concat_axis1 d R) as [Y0|] eqn:C; [|discriminate]. simpl in Htab.
  assert (index Y0 = union_index (index d) (index R)) as HiY.
  { unfold concat_axis1 in C.
    destruct (reindex_frame d _); [|discriminate].
    destruct (reindex_frame R _); [|discriminate].
    simpl in C. now injection C as <-. }
  rewrite HiR, union_index_filter in HiY.
  destruct (drop_original self).
  - apply drop_columns in Htab. destruct Htab as [_ ->]. exact HiY.
  - injection Htab as <-. exact HiY.
Qed.

End NewColumns.

(* ====================================================================== *)
(** ** Further instances                                                   *)
(* ====================================================================== *)

(** A mapping as [func] with the columns [x1] and [x2]. *)
Lemma mapping_func_is_refused_witness :
  __init__ x1_x2 (PDict []) PNone "raise" false = Raise UnsupportedSpecError.
Proof.
  apply (mapping_func_is_refused [PStr "x1"; PStr "x2"]
           [KStr "x1"; KStr "x2"]).
  - repeat constructor.
  - simpl. lia.
  - simpl. auto.
Defined.

(** [variables=[1, True]]. *)
Lemma equal_entries_are_duplicates_witness :
  __init__ (PList [PInt 1; PBool true]) (PStr "sum") PNone "raise" false
  = Raise ConfigError.
Proof.
  apply (equal_entries_are_duplicates [PInt 1; PBool true]
           [KInt 1; KBool true]).
  - repeat constructor.
  - simpl. intros [H _]. discriminate.
Defined.

(** The sum of [x1] and [x2] under the name [total]. *)
Lemma valid_arguments_are_accepted_witness :
  __init__ x1_x2 (PStr "sum") (PList [PStr "total"]) "ignore" true
  = Ok {| variables := [KStr "x1"; KStr "x2"];
          func := PList [PStr "sum"];
          new_variables_names := Some ["total"];
          missing_values := "ignore";
          drop_original := true;
          fitted := None |}.
Proof.
  apply (valid_arguments_are_accepted [PStr "x1"; PStr "x2"]
           [KStr "x1"; KStr "x2"] (PStr "sum") (PList [PStr "total"])
           (Some ["total"]) "ignore" true).
  - repeat constructor.
  - simpl. lia.
  - simpl. auto.
  - discriminate.
  - reflexivity.
  - intros ss E. injection E as <-. split.
    + repeat constructor. simpl. tauto.
    + intros fs F. injection F as <-. reflexivity.
  - now right.
Defined.

Lemma construction_stores_arguments_witness :
  func instance_total_avg = normalise (PList [PStr "sum"; PStr "mean"])
  /\ names_given (PList [PStr "total"; PStr "avg"])
                 (new_variables_names instance_total_avg).
Proof.
  destruct (construction_stores_arguments x1_x2
              (PList [PStr "sum"; PStr "mean"])
              (PList [PStr "total"; PStr "avg"]) "raise" true
              {| variables := [KStr "x1"; KStr "x2"];
                 func := PList [PStr "sum"; PStr "mean"];
                 new_variables_names := Some ["total"; "avg"];
                 missing_values := "raise";
                 drop_original := true;
                 fitted := None |} eq_refl)
    as [_ [_ [_ [Hf [_ [Hn _]]]]]].
  split; [exact Hf | exact Hn].
Defined.

(** Two names for the one specification ["sum"]. *)
Lemma names_are_validated_for_lists_witness :
  __init__ x1_x2 (PStr "sum") (PList [PStr "a"; PStr "b"]) "raise" false
  = Raise ConfigError.
Proof.
  apply (names_are_validated_for_lists x1_x2 (PStr "sum")
           (PList [PStr "a"; PStr "b"]) "raise" false [PStr "sum"]).
  - reflexivity.
  - discriminate.
  - intros [l [E [_ L]]]. destruct l as [|a [|b t]]; simpl in *; discriminate.
Defined.

Lemma explicit_names_verbatim_witness :
  _get_new_features_name instance_total_avg = Ok ["total"; "avg"].
Proof.
  apply (explicit_names_verbatim instance_total_avg). reflexivity.
Defined.

Lemma derived_names_for_lists_witness :
  _get_new_features_name instance_sum_mean
  = Ok [derived_name "sum" [KStr "x1"; KStr "x2"];
        derived_name "mean" [KStr "x1"; KStr "x2"]].
Proof.
  apply (derived_names_for_lists instance_sum_mean
           {| variables_ := [KStr "x1"; KStr "x2"]; n_features_in_ := 2 |}
           [PStr "sum"; PStr "mean"] ["sum"; "mean"]).
  - reflexivity.
  - reflexivity.
  - reflexivity.
  - repeat constructor.
Defined.

Lemma derived_names_differ_from_inputs_witness :
  key_eqb (KStr "sum_x1_x2") (KStr "x1") = false.
Proof.
  apply (derived_names_differ_from_inputs instance_sum_mean
           {| variables_ := [KStr "x1"; KStr "x2"]; n_features_in_ := 2 |}
           ["sum_x1_x2"; "mean_x1_x2"]).
  - reflexivity.
  - reflexivity.
  - reflexivity.
  - simpl. auto.
  - simpl. auto.
Defined.

Lemma derived_names_distinct_iff_witness :
  exists fs idents,
    func instance_sum_mean = PList fs /\
    Forall2 (fun f ident => identity f = Some ident) fs idents /\
    length ["sum_x1_x2"; "mean_x1_x2"] = length fs /\
    (NoDup ["sum_x1_x2"; "mean_x1_x2"] <-> NoDup idents).
Proof.
  apply (derived_names_distinct_iff instance_sum_mean
           {| variables_ := [KStr "x1"; KStr "x2"]; n_features_in_ := 2 |}
           ["sum_x1_x2"; "mean_x1_x2"]); reflexivity.
Defined.

Lemma builtin_names_are_exact_witness :
  builtin sqrt_unused (PStr "np.median") = builtin sqrt_unused (PStr "median").
Proof.
  apply (proj2 (builtin_names_are_exact sqrt_unused) "median").
  unfold builtin_names. simpl. tauto.
Defined.

(** No specification, on the table whose rows are labelled 10, 20, 30. *)
Lemma passed_over_specifications_add_nothing_witness :
  exists dy,
    nth_error (snd (transform sqrt_unused agg_unknown instance_no_specification
                      0 [table_labelled])) 2 = Some dy /\
    Ok table_labelled = Ok dy.
Proof.
  apply (passed_over_specifications_add_nothing sqrt_unused agg_unknown
           instance_no_specification [table_labelled] _ 0 2 table_labelled []).
  - reflexivity.
  - vm_compute. reflexivity.
  - reflexivity.
  - constructor.
Defined.

Lemma transform_returns_a_new_table_witness :
  2 <> 0
  /\ nth_error [table_A] 2 = None
  /\ firstn 1 (snd (transform sqrt_unused agg_unknown instance_total_avg
                      0 [table_A])) = [table_A].
Proof.
  apply (transform_returns_a_new_table sqrt_unused agg_unknown
           instance_total_avg [table_A] _ 0 2 table_A).
  - reflexivity.
  - vm_compute. reflexivity.
Defined.

Lemma transform_is_repeatable_witness :
  let h1 := snd (transform sqrt_unused agg_unknown instance_total_avg
                   0 [table_A]) in
  let h2 := snd (transform sqrt_unused agg_unknown instance_total_avg 0 h1) in
  2 <> 4 /\ exists dy, nth_error h2 2 = Some dy /\ nth_error h2 4 = Some dy.
Proof.
  intros h1 h2.
  apply (transform_is_repeatable sqrt_unused agg_unknown instance_total_avg
           [table_A] h1 h2 0 2 4 table_A).
  - reflexivity.
  - vm_compute. reflexivity.
  - vm_compute. reflexivity.
Defined.

Lemma new_columns_are_rowwise_reductions_witness :
  exists dy sub cols,
    nth_error (snd (transform sqrt_unused agg_unknown instance_total_avg
                      0 [table_A])) 2 = Some dy /\
    getitem table_A (variables instance_total_avg) = Ok sub /\
    mapM (fun f => spec_column sqrt_unused agg_unknown f (values sub))
         [PStr "sum"; PStr "mean"] = Ok cols /\
    index dy = index table_A /\
    data dy
    = (if drop_original instance_total_avg
       then filter (fun c : key * list fl =>
                      negb (key_in (fst c) (variables instance_total_avg)))
                   (data table_A)
       else data table_A)
      ++ combine (map KStr (firstn 2 ["total"; "avg"])) cols.
Proof.
  apply (new_columns_are_rowwise_reductions sqrt_unused agg_unknown
           instance_total_avg [table_A] _ 0 2 table_A ["total"; "avg"]
           [PStr "sum"; PStr "mean"]).
  - reflexivity.
  - vm_compute. reflexivity.
  - reflexivity.
  - reflexivity.
  - reflexivity.
  - repeat constructor; simpl; intuition discriminate.
  - repeat constructor; left; discriminate.
  - intros _ name [<-|[<-|[]]]; reflexivity.
Defined.

(** The table whose rows are labelled 10, 20, 30 comes back with six
    rows. *)
Lemma builtin_results_are_labelled_by_position_witness :
  exists dy,
    nth_error (snd (transform sqrt_unused agg_unknown instance_total_avg
                      0 [table_labelled])) 2 = Some dy /\
    index dy
    = index table_labelled
      ++ filter (fun l => negb (existsb (Z.eqb l) (index table_labelled)))
                (RangeIndex (nrows table_labelled)).
Proof.
  apply (builtin_results_are_labelled_by_position sqrt_unused agg_unknown
           instance_total_avg [table_labelled] _ 0 2 table_labelled
           [PStr "sum"; PStr "mean"]).
  - reflexivity.
  - vm_compute. reflexivity.
  - reflexivity.
  - discriminate.
  - repeat constructor; discriminate.
Defined.

Lemma transform_keeps_original_rows_witness :
  exists dy ext new,
    nth_error (snd (transform sqrt_unused agg_unknown instance_sum_mean
                      0 [table_labelled])) 2 = Some dy /\
    index dy = index table_labelled ++ ext /\
    data dy
    = map (fun c : key * list fl => (fst c, snd c ++ repeat NaN (length ext)))
          (if drop_original instance_sum_mean
           then filter (fun c : key * list fl =>
                          negb (key_in (fst c) (variables instance_sum_mean)))
                       (data table_labelled)
           else data table_labelled) ++ new.
Proof.
  apply (transform_keeps_original_rows sqrt_unused agg_unknown
           instance_sum_mean [table_labelled] _ 0 2 table_labelled).
  - reflexivity.
  - repeat constructor.
  - vm_compute. reflexivity.
Defined.
